(** * The recurring-task scheduler of [elohim.py]

    A shallow embedding of [Elohim.schedule_task] and
    [Elohim._start_task_scheduler] (elohim.py, lines 209-235) together with
    the two thread bodies that the latter defines, [worker] and [run_task].

    The program is multi-threaded.  Each thread is cut into atomic steps at
    the points where it blocks or calls out ([Queue.get], [Thread.start],
    [task_fn()], [time.sleep]); a run of the program is a list of labels, one
    per step, which fixes the interleaving and what the environment answered
    (whether a thread could be started, how an action ended and how long it
    took, whether the operating system granted a sleep).  The main thread is
    the only caller of [schedule_task] in the source, so a call is one step
    here; callers that overlap, and calls of [_start_task_scheduler] from
    elsewhere, are added further down. *)

From Stdlib Require Import QArith.
From stdpp Require Import base option list strings.

Local Open Scope string_scope.
Local Open Scope list_scope.

(** ** Python values *)

(** A callable handed to [schedule_task]; the scheduler never looks inside,
    so it is known by its identity only. *)
Definition action := nat.

(** The exception classes that matter to the handlers of the scheduler:
    [except RuntimeError] (lines 228, 234) and [except Exception] (line 223).
    [SystemExit] and [KeyboardInterrupt] derive from [BaseException] only. *)
Inductive exc_class :=
  | RuntimeError
  | ValueError
  | OtherException
  | SystemExit
  | KeyboardInterrupt.

Definition is_Exception (c : exc_class) : bool :=
  match c with
  | SystemExit | KeyboardInterrupt => false
  | RuntimeError | ValueError | OtherException => true
  end.

Definition is_RuntimeError (c : exc_class) : bool :=
  match c with
  | RuntimeError => true
  | _ => false
  end.

Record exn := Exn { exc_cls : exc_class; exc_msg : string }.

(** How one call [task_fn()] ends. *)
Inductive outcome :=
  | Returned
  | Raised (e : exn).

(** How one call [Thread(...).start()] ends: the thread runs, or the
    interpreter raises [RuntimeError] because no thread can be created. *)
Inductive start_outcome :=
  | Started
  | CannotStart (msg : string).

(** The tuple [(interval_sec, task_fn)] that travels through the queue. *)
Definition task := (Q * action)%type.

(** ** Threads *)

(** One activation of [worker] (lines 216-229).  [interval] and [task_fn]
    are local variables of [worker] that the nested function [run_task]
    refers to, hence cells of this frame: line 218 rebinds them at every
    turn of the [while], and every [run_task] closure made by this
    activation reads them from here. *)
Inductive worker_pc :=
  | AtGet       (* line 218, in or before [self.task_queue.get()] *)
  | AtStart     (* lines 219-229, a tuple was unpacked, thread not yet started *)
  | WorkerDead. (* left the loop with an exception *)

Record worker_frame := WorkerFrame {
  w_pc : worker_pc;
  w_cells : option task   (* [None]: not yet bound *)
}.

(** One thread running [run_task] (lines 219-225).  It has no variables of
    its own; [r_frame] is the index of the [worker] activation whose cells
    its closure captured.  [r_clock] is the time spent since the thread was
    started: the sum of the durations of its calls and sleeps. *)
Inductive loop_pc :=
  | AtCall                  (* line 222, about to read [task_fn] and call it *)
  | InAction (f : action)   (* inside [task_fn()] *)
  | AtSleep                 (* line 225, about to read [interval] and sleep *)
  | LoopDead.               (* left the loop with an exception *)

Record run_task_thread := RunTask {
  r_frame : nat;
  r_pc : loop_pc;
  r_clock : Q
}.

(** What can be observed of a run, in order.  This history is not a
    variable of the program; the steps below append to it so that properties
    of whole runs can be stated. *)
Inductive event :=
  | EvPut (t : task)                       (* line 210 *)
  | EvStartScheduler                       (* line 213, call of [_start_task_scheduler] *)
  | EvWorker (w : nat)                     (* line 233, worker [w] runs *)
  | EvGet (w : nat) (t : task)             (* line 218, worker [w] took [t] *)
  | EvLaunch (w l : nat) (t : task)        (* line 227, loop [l] runs, made for [t] *)
  | EvInvoke (l : nat) (f : action) (now : Q)  (* line 222, loop [l] calls [f] *)
  | EvSlept (l : nat) (i : Q).             (* line 225, loop [l] slept [i] *)

(** ** The program state *)

(** The three attributes of [Elohim] that the scheduler uses (lines 79-81),
    the threads it has started, the [logging] sink and the history. *)
Record state := State {
  task_queue : list task;
  max_worker_threads : nat;
  scheduler_started : bool;
  workers : list worker_frame;
  loops : list run_task_thread;
  log : list string;
  history : list event
}.

(** [Elohim.__init__], lines 79-81. *)
Definition init : state :=
  {| task_queue := [];
     max_worker_threads := 5;
     scheduler_started := false;
     workers := [];
     loops := [];
     log := [];
     history := [] |}.

Definition with_task_queue (q : list task) (s : state) : state :=
  {| task_queue := q;
     max_worker_threads := max_worker_threads s;
     scheduler_started := scheduler_started s;
     workers := workers s;
     loops := loops s;
     log := log s;
     history := history s |}.

Definition with_scheduler_started (b : bool) (s : state) : state :=
  {| task_queue := task_queue s;
     max_worker_threads := max_worker_threads s;
     scheduler_started := b;
     workers := workers s;
     loops := loops s;
     log := log s;
     history := history s |}.

Definition with_workers (ws : list worker_frame) (s : state) : state :=
  {| task_queue := task_queue s;
     max_worker_threads := max_worker_threads s;
     scheduler_started := scheduler_started s;
     workers := ws;
     loops := loops s;
     log := log s;
     history := history s |}.

Definition with_loops (ls : list run_task_thread) (s : state) : state :=
  {| task_queue := task_queue s;
     max_worker_threads := max_worker_threads s;
     scheduler_started := scheduler_started s;
     workers := workers s;
     loops := ls;
     log := log s;
     history := history s |}.

Definition logged (m : string) (s : state) : state :=
  {| task_queue := task_queue s;
     max_worker_threads := max_worker_threads s;
     scheduler_started := scheduler_started s;
     workers := workers s;
     loops := loops s;
     log := log s ++ [m];
     history := history s |}.

Definition observed (e : event) (s : state) : state :=
  {| task_queue := task_queue s;
     max_worker_threads := max_worker_threads s;
     scheduler_started := scheduler_started s;
     workers := workers s;
     loops := loops s;
     log := log s;
     history := history s ++ [e] |}.

(** ** Statements that may raise *)

Inductive result (A : Type) :=
  | Ok (a : A)
  | Raise (e : exn).
Arguments Ok {A} a.
Arguments Raise {A} e.

Definition M (A : Type) : Type := state -> result A * state.

Definition ret {A} (a : A) : M A := fun s => (Ok a, s).

Definition bind {A B} (m : M A) (k : A -> M B) : M B :=
  fun s =>
    match m s with
    | (Ok a, s') => k a s'
    | (Raise e, s') => (Raise e, s')
    end.

Definition raise {A} (e : exn) : M A := fun s => (Raise e, s).

(** [try: m  except <class> as e: h e], for the classes accepted by [catches]. *)
Definition try_except {A} (m : M A) (catches : exc_class -> bool) (h : exn -> M A) : M A :=
  fun s =>
    match m s with
    | (Ok a, s') => (Ok a, s')
    | (Raise e, s') => if catches (exc_cls e) then h e s' else (Raise e, s')
    end.

Notation "m ;; k" := (bind m (fun _ => k))
  (at level 100, k at level 200, right associativity).

(** [for k in range(n): body k], counting from [k]. *)
Fixpoint for_range (n k : nat) (body : nat -> M unit) : M unit :=
  match n with
  | O => ret tt
  | S n' => body k ;; for_range n' (S k) body
  end.

(** [logging.error(m)] *)
Definition logging_error (m : string) : M unit :=
  fun s => (Ok tt, logged m s).

(** [self.task_queue.put(t)] on an unbounded [queue.Queue]: appends at the
    tail and never blocks. *)
Definition queue_put (t : task) : M unit :=
  fun s => (Ok tt, observed (EvPut t) (with_task_queue (task_queue s ++ [t]) s)).

(** A [worker] activation that has just begun: at line 218, cells unbound. *)
Definition fresh_worker : worker_frame := WorkerFrame AtGet None.

(** What a new thread runs: [worker], or the closure [run_task] made by the
    [worker] activation [frame].  [made_for] is not part of the closure; it
    records which tuple the cells held when line 219 made it. *)
Inductive target :=
  | Tworker
  | Trun_task (frame : nat) (made_for : task).

(** [threading.Thread(target=tg, daemon=True).start()] *)
Definition Thread_start (tg : target) (o : start_outcome) : M unit :=
  match o with
  | CannotStart msg => raise (Exn RuntimeError msg)
  | Started =>
      fun s =>
        match tg with
        | Tworker =>
            (Ok tt, observed (EvWorker (length (workers s)))
                      (with_workers (workers s ++ [fresh_worker]) s))
        | Trun_task w t =>
            (Ok tt, observed (EvLaunch w (length (loops s)) t)
                      (with_loops (loops s ++ [RunTask w AtCall 0]) s))
        end
  end.

(** ** [_start_task_scheduler], lines 231-235 *)

(** [starts k] is how the [k]-th [Thread.start()] of the [for] ends. *)
Definition _start_task_scheduler (starts : nat -> start_outcome) : M unit :=
  fun s =>
    for_range (max_worker_threads s) 0
      (fun k =>
         try_except (Thread_start Tworker (starts k)) is_RuntimeError
           (fun e => logging_error ("Worker thread failed to start: " +:+ exc_msg e)))
      (observed EvStartScheduler s).

(** ** [schedule_task], lines 209-213 *)

Definition schedule_task (interval_sec : Q) (task_fn : action)
    (starts : nat -> start_outcome) : M unit :=
  queue_put (interval_sec, task_fn) ;;
  fun s =>
    if negb (scheduler_started s)
    then _start_task_scheduler starts (with_scheduler_started true s)
    else ret tt s.

(** ** The body of [worker], lines 217-229 *)

Definition set_worker (w : nat) (fr : worker_frame) (s : state) : state :=
  with_workers (<[w := fr]> (workers s)) s.

Definition set_loop (l : nat) (th : run_task_thread) (s : state) : state :=
  with_loops (<[l := th]> (loops s)) s.

(** Line 218: [interval, task_fn = self.task_queue.get()].  [get] blocks
    while the queue is empty, so the step exists only when it is not; it
    removes the head, and the unpacking rebinds both cells of the frame. *)
Definition worker_get (w : nat) (s : state) : option state :=
  fr ← workers s !! w;
  match w_pc fr, task_queue s with
  | AtGet, t :: q =>
      Some (observed (EvGet w t)
              (set_worker w (WorkerFrame AtStart (Some t)) (with_task_queue q s)))
  | _, _ => None
  end.

(** Lines 219-229: make the closure, try to start its thread, log a
    [RuntimeError]; then back to line 218.  Any other exception would leave
    the [while] and end the worker. *)
Definition worker_start (w : nat) (o : start_outcome) (s : state) : option state :=
  fr ← workers s !! w;
  match w_pc fr, w_cells fr with
  | AtStart, Some t =>
      match try_except (Thread_start (Trun_task w t) o) is_RuntimeError
              (fun e => logging_error ("Thread limit reached: " +:+ exc_msg e)) s with
      | (Ok _, s') => Some (set_worker w (WorkerFrame AtGet (w_cells fr)) s')
      | (Raise _, s') => Some (set_worker w (WorkerFrame WorkerDead (w_cells fr)) s')
      end
  | _, _ => None
  end.

(** ** The body of [run_task], lines 220-225 *)

(** The cells that the closure of loop thread [th] reads. *)
Definition cells_of (th : run_task_thread) (s : state) : option task :=
  fr ← workers s !! r_frame th; w_cells fr.

(** Line 222, the call: [task_fn] is read from the cell when the call is
    made. *)
Definition task_call (l : nat) (s : state) : option state :=
  th ← loops s !! l;
  match r_pc th with
  | AtCall =>
      c ← cells_of th s;
      Some (observed (EvInvoke l (snd c) (r_clock th))
              (set_loop l (RunTask (r_frame th) (InAction (snd c)) (r_clock th)) s))
  | _ => None
  end.

(** Lines 222-224, the end of the call after [d] units of time: a return
    or an exception of class [Exception] (logged) leads to line 225; any
    other exception leaves the [while] and ends the thread. *)
Definition task_done (l : nat) (o : outcome) (d : Q) (s : state) : option state :=
  th ← loops s !! l;
  match r_pc th with
  | InAction _ =>
      if Qle_bool 0 d then
        let now := (r_clock th + d)%Q in
        match o with
        | Returned => Some (set_loop l (RunTask (r_frame th) AtSleep now) s)
        | Raised e =>
            if is_Exception (exc_cls e)
            then Some (set_loop l (RunTask (r_frame th) AtSleep now)
                         (logged ("Scheduled task error: " +:+ exc_msg e) s))
            else Some (set_loop l (RunTask (r_frame th) LoopDead now) s)
        end
      else None
  | _ => None
  end.

(** [time.sleep(secs)] first turns [secs] into a number of nanoseconds held
    in a signed 64-bit integer and raises [OverflowError] ("timestamp too
    large to convert to C _PyTime_t") when it does not fit; it then raises
    [ValueError] ("sleep length must be non-negative") when the number is
    negative.  A length that passes both checks is handed to the operating
    system.  [secs] is an [int] in both calls of the source (3600 and 300);
    the arithmetic here is exact, as it is for an [int]: the greatest [int]
    that passes is 9223372036, and -9223372037 overflows. *)
Inductive sleep_end :=
  | SleepReturns
  | SleepOverflowError
  | SleepValueError.

Definition time_sleep (secs : Q) : sleep_end :=
  let ns := (secs * 1000000000)%Q in
  if Qle_bool (inject_Z (- 2 ^ 63)) ns && negb (Qle_bool (inject_Z (2 ^ 63)) ns)
  then if Qle_bool 0 ns then SleepReturns else SleepValueError
  else SleepOverflowError.
Arguments time_sleep : simpl never.

(** Line 225, [time.sleep(interval)], when the operating system grants the
    sleep: [interval] is read from the cell when the sleep starts.  An
    exception of [time.sleep] is raised outside the [try], which ends the
    thread; nothing is passed to [logging]. *)
Definition task_sleep (l : nat) (s : state) : option state :=
  th ← loops s !! l;
  match r_pc th with
  | AtSleep =>
      c ← cells_of th s;
      match time_sleep (fst c) with
      | SleepReturns =>
          Some (observed (EvSlept l (fst c))
                  (set_loop l (RunTask (r_frame th) AtCall (r_clock th + fst c)%Q) s))
      | SleepOverflowError | SleepValueError =>
          Some (set_loop l (RunTask (r_frame th) LoopDead (r_clock th)) s)
      end
  | _ => None
  end.

(** Line 225 when the operating system refuses a length that passed the
    checks of [time.sleep]: [OSError], again outside the [try].  (Under
    CPython 3.11 on Linux, [time.sleep(9223372036)] raises [OSError: [Errno
    22] Invalid argument]: the end of the sleep lies beyond what the clock of
    the kernel can hold.)  For which lengths the system refuses is not part
    of the model; the run tells, as it tells whether a thread could be
    started. *)
Definition task_sleep_refused (l : nat) (s : state) : option state :=
  th ← loops s !! l;
  match r_pc th with
  | AtSleep =>
      c ← cells_of th s;
      match time_sleep (fst c) with
      | SleepReturns => Some (set_loop l (RunTask (r_frame th) LoopDead (r_clock th)) s)
      | SleepOverflowError | SleepValueError => None
      end
  | _ => None
  end.

(** ** Runs of the whole program *)

Inductive label :=
  | Schedule (interval_sec : Q) (task_fn : action) (starts : nat -> start_outcome)
  | WorkerGet (w : nat)
  | WorkerStart (w : nat) (o : start_outcome)
  | TaskCall (l : nat)
  | TaskDone (l : nat) (o : outcome) (d : Q)
  | TaskSleep (l : nat)
  | TaskSleepRefused (l : nat).

Definition step (a : label) (s : state) : option state :=
  match a with
  | Schedule i f starts => Some (snd (schedule_task i f starts s))
  | WorkerGet w => worker_get w s
  | WorkerStart w o => worker_start w o s
  | TaskCall l => task_call l s
  | TaskDone l o d => task_done l o d s
  | TaskSleep l => task_sleep l s
  | TaskSleepRefused l => task_sleep_refused l s
  end.

Fixpoint exec (ls : list label) (s : state) : option state :=
  match ls with
  | [] => Some s
  | a :: ls' => s' ← step a s; exec ls' s'
  end.

(** ** Views of the history *)

Definition submitted (h : list event) : list task :=
  omap (fun e => match e with EvPut t => Some t | _ => None end) h.

(** Who took what from the queue, in order. *)
Definition deliveries (h : list event) : list (nat * task) :=
  omap (fun e => match e with EvGet w t => Some (w, t) | _ => None end) h.

Definition scheduler_starts (h : list event) : nat :=
  length (omap (fun e => match e with EvStartScheduler => Some tt | _ => None end) h).

Definition invoked_by (l : nat) (e : event) : option (action * Q) :=
  match e with
  | EvInvoke l' f now => if decide (l' = l) then Some (f, now) else None
  | _ => None
  end.

(** The calls made by loop [l], with the time of each on the loop's clock. *)
Definition invocations (l : nat) (h : list event) : list (action * Q) :=
  omap (invoked_by l) h.

(** The lengths of the sleeps of loop [l]. *)
Definition sleeps (l : nat) (h : list event) : list Q :=
  omap (fun e => match e with
                 | EvSlept l' i => if decide (l' = l) then Some i else None
                 | _ => None
                 end) h.

(** How many calls loop [l] has begun by time [t] on its clock. *)
Definition invoked_until (t : Q) (l : nat) (h : list event) : nat :=
  length (filter (fun c => Qle_bool (snd c) t = true) (invocations l h)).

(** The tuples passed to [schedule_task] in a run. *)
Definition scheduled (ls : list label) : list task :=
  omap (fun a => match a with Schedule i f _ => Some (i, f) | _ => None end) ls.

(** ** Counting the workers that start *)

(** Of the [n] starts numbered from [k], how many succeed, and what the
    others log. *)
Fixpoint started_count (starts : nat -> start_outcome) (n k : nat) : nat :=
  match n with
  | O => O
  | S n' =>
      match starts k with
      | Started => S (started_count starts n' (S k))
      | CannotStart _ => started_count starts n' (S k)
      end
  end.

Fixpoint failed_starts (starts : nat -> start_outcome) (n k : nat) : list string :=
  match n with
  | O => []
  | S n' =>
      match starts k with
      | Started => failed_starts starts n' (S k)
      | CannotStart m =>
          ("Worker thread failed to start: " +:+ m) :: failed_starts starts n' (S k)
      end
  end.

(** ** The steps as a relation *)

Inductive transition : label -> state -> state -> Prop :=
  | T_schedule_first i f starts s :
      scheduler_started s = false ->
      transition (Schedule i f starts) s
        {| task_queue := task_queue s ++ [(i, f)];
           max_worker_threads := max_worker_threads s;
           scheduler_started := true;
           workers := workers s ++
             replicate (started_count starts (max_worker_threads s) 0) fresh_worker;
           loops := loops s;
           log := log s ++ failed_starts starts (max_worker_threads s) 0;
           history := history s ++ EvPut (i, f) :: EvStartScheduler ::
             map EvWorker (seq (length (workers s))
                             (started_count starts (max_worker_threads s) 0)) |}
  | T_schedule_again i f starts s :
      scheduler_started s = true ->
      transition (Schedule i f starts) s
        (observed (EvPut (i, f)) (with_task_queue (task_queue s ++ [(i, f)]) s))
  | T_get w c t q s :
      workers s !! w = Some (WorkerFrame AtGet c) ->
      task_queue s = t :: q ->
      transition (WorkerGet w) s
        (observed (EvGet w t)
           (set_worker w (WorkerFrame AtStart (Some t)) (with_task_queue q s)))
  | T_start_ok w t s :
      workers s !! w = Some (WorkerFrame AtStart (Some t)) ->
      transition (WorkerStart w Started) s
        (set_worker w (WorkerFrame AtGet (Some t))
           (observed (EvLaunch w (length (loops s)) t)
              (with_loops (loops s ++ [RunTask w AtCall 0]) s)))
  | T_start_fail w t m s :
      workers s !! w = Some (WorkerFrame AtStart (Some t)) ->
      transition (WorkerStart w (CannotStart m)) s
        (set_worker w (WorkerFrame AtGet (Some t))
           (logged ("Thread limit reached: " +:+ m) s))
  | T_call l w c fr t s :
      loops s !! l = Some (RunTask w AtCall c) ->
      workers s !! w = Some fr ->
      w_cells fr = Some t ->
      transition (TaskCall l) s
        (observed (EvInvoke l (snd t) c)
           (set_loop l (RunTask w (InAction (snd t)) c) s))
  | T_return l w g c d s :
      loops s !! l = Some (RunTask w (InAction g) c) ->
      Qle_bool 0 d = true ->
      transition (TaskDone l Returned d) s
        (set_loop l (RunTask w AtSleep (c + d)) s)
  | T_caught l w g c d e s :
      loops s !! l = Some (RunTask w (InAction g) c) ->
      Qle_bool 0 d = true ->
      is_Exception (exc_cls e) = true ->
      transition (TaskDone l (Raised e) d) s
        (set_loop l (RunTask w AtSleep (c + d))
           (logged ("Scheduled task error: " +:+ exc_msg e) s))
  | T_uncaught l w g c d e s :
      loops s !! l = Some (RunTask w (InAction g) c) ->
      Qle_bool 0 d = true ->
      is_Exception (exc_cls e) = false ->
      transition (TaskDone l (Raised e) d) s
        (set_loop l (RunTask w LoopDead (c + d)) s)
  | T_sleep l w c fr t s :
      loops s !! l = Some (RunTask w AtSleep c) ->
      workers s !! w = Some fr ->
      w_cells fr = Some t ->
      time_sleep (fst t) = SleepReturns ->
      transition (TaskSleep l) s
        (observed (EvSlept l (fst t))
           (set_loop l (RunTask w AtCall (c + fst t)) s))
  | T_sleep_raises l w c fr t s :
      loops s !! l = Some (RunTask w AtSleep c) ->
      workers s !! w = Some fr ->
      w_cells fr = Some t ->
      time_sleep (fst t) <> SleepReturns ->
      transition (TaskSleep l) s (set_loop l (RunTask w LoopDead c) s)
  | T_sleep_refused l w c fr t s :
      loops s !! l = Some (RunTask w AtSleep c) ->
      workers s !! w = Some fr ->
      w_cells fr = Some t ->
      time_sleep (fst t) = SleepReturns ->
      transition (TaskSleepRefused l) s (set_loop l (RunTask w LoopDead c) s).

(** ** Invariants and sample runs *)

(** What was taken from the queue, then what is still in it, is what was put. *)
Definition fifo_inv (s : state) : Prop :=
  (deliveries (history s)).*2 ++ task_queue s = submitted (history s).

(** The two tuples that [Elohim.run] schedules (lines 240 and 270), with
    every thread start succeeding: used below to exercise the theorems. *)
Definition every_start_succeeds : nat -> start_outcome := fun _ => Started.

Definition no_thread_starts : nat -> start_outcome :=
  fun _ => CannotStart "can't start new thread".

Definition generate_thought : action := 1.
Definition earn_money_simulation : action := 2.

Definition run_prefix : list label :=
  [Schedule 3600 generate_thought every_start_succeeds;
   Schedule 300 earn_money_simulation every_start_succeeds].

(** A call of [schedule_task] is rejected when it raises and leaves the
    queue as it was. *)
Definition rejected (r : result unit * state) (before : state) : Prop :=
  (exists e, fst r = Raise e) /\ task_queue (snd r) = task_queue before.

(** A label of a dispatcher worker. *)
Definition is_worker_label (a : label) : bool :=
  match a with
  | WorkerGet _ | WorkerStart _ _ => true
  | _ => false
  end.

(** The tuples for which loop [l] was made. *)
Definition launched_for (l : nat) (h : list event) : list task :=
  omap (fun e => match e with
                 | EvLaunch _ l' t => if decide (l' = l) then Some t else None
                 | _ => None
                 end) h.

(** The pool after a first call in which no worker could be started. *)
Definition pool_without_workers (s : state) : Prop :=
  scheduler_started s = true /\ workers s = [] /\ loops s = [].

(** Both tuples of [Elohim.run] go to the worker that started first: it
    takes the first, starts its loop, and is back at [get] when the second
    arrives.  The loop runs one cycle before and one after the second
    [get]. *)
Definition one_worker_takes_both : list label :=
  run_prefix ++
  [WorkerGet 0; WorkerStart 0 Started;
   TaskCall 0; TaskDone 0 Returned 0; TaskSleep 0;
   WorkerGet 0; WorkerStart 0 Started;
   TaskCall 0; TaskDone 0 Returned 0; TaskSleep 0].

(** A loop is inside a long call of its action while a second tuple waits
    in the queue. *)
Definition slow_action_running : list label :=
  run_prefix ++ [WorkerGet 0; WorkerStart 0 Started; TaskCall 0].

(** The state that a run from [init] ends in ([init] itself when the run
    asks for a step that cannot be taken). *)
Definition after_run (ls : list label) : state := default init (exec ls init).

(** ** Turns of the [while] of [run_task] *)

(** One turn in loop [l]: the call, its end [o] after [d] units of time, the
    sleep. *)
Definition cycle (l : nat) (o : outcome) (d : Q) : list label :=
  [TaskCall l; TaskDone l o d; TaskSleep l].

(** [n] turns in a row; [ends k] tells how the call of turn [k] ends and how
    long it takes.  Turns are numbered from [k]. *)
Fixpoint cycles (l : nat) (ends : nat -> outcome * Q) (k n : nat) : list label :=
  match n with
  | O => []
  | S n' => cycle l (fst (ends k)) (snd (ends k)) ++ cycles l ends (S k) n'
  end.

(** The ends of a call after which line 225 is reached: a return, or an
    exception that [except Exception] catches. *)
Definition handled (o : outcome) : bool :=
  match o with
  | Returned => true
  | Raised e => is_Exception (exc_cls e)
  end.

(** What line 224 logs for a call that ends as [o]. *)
Definition error_line (o : outcome) : list string :=
  match o with
  | Returned => []
  | Raised e => ["Scheduled task error: " +:+ exc_msg e]
  end.

Fixpoint error_lines (ends : nat -> outcome * Q) (k n : nat) : list string :=
  match n with
  | O => []
  | S n' => error_line (fst (ends k)) ++ error_lines ends (S k) n'
  end.

(** The times of the calls of [n] turns that begin at time [c] when every
    sleep lasts [i]: a call begins [i] after the call before it ended. *)
Fixpoint call_times (c i : Q) (ends : nat -> outcome * Q) (k n : nat) : list Q :=
  match n with
  | O => []
  | S n' => c :: call_times (c + snd (ends k) + i) i ends (S k) n'
  end.

Fixpoint clock_after (c i : Q) (ends : nat -> outcome * Q) (k n : nat) : Q :=
  match n with
  | O => c
  | S n' => clock_after (c + snd (ends k) + i) i ends (S k) n'
  end.

Fixpoint cycle_events (l : nat) (f : action) (c i : Q)
    (ends : nat -> outcome * Q) (k n : nat) : list event :=
  match n with
  | O => []
  | S n' =>
      EvInvoke l f c :: EvSlept l i ::
      cycle_events l f (c + snd (ends k) + i) i ends (S k) n'
  end.

(** The scenario of the specification: one task with interval 1 whose
    action counts its calls and takes no time; four turns of its loop. *)
Definition counting_action : action := 0.

Definition counting_task_launched : list label :=
  [Schedule 1 counting_action every_start_succeeds; WorkerGet 0; WorkerStart 0 Started].

Definition fixed_delay_scenario : list label :=
  counting_task_launched ++ cycles 0 (fun _ => (Returned, 0%Q)) 0 4.

(** An action that raises [ValueError] at every call, at once. *)
Definition always_raises : nat -> exn := fun _ => Exn ValueError "boom".
Definition no_time : nat -> Q := fun _ => 0%Q.

(** ** Further views of a run *)

(** The tuples that worker [w] has taken from the queue, in order. *)
Definition taken_by (w : nat) (h : list event) : list task :=
  omap (fun e => match e with
                 | EvGet w' t => if decide (w' = w) then Some t else None
                 | _ => None
                 end) h.

(** The log lines of line 229 and of line 235. *)
Definition spawn_failures (lg : list string) : nat :=
  length (filter (fun m => String.prefix "Thread limit reached: " m = true) lg).

Definition worker_start_failures (lg : list string) : nat :=
  length (filter (fun m => String.prefix "Worker thread failed to start: " m = true) lg).

(** The workers that hold a tuple for which line 227 has not run yet. *)
Definition at_start (fr : worker_frame) : bool :=
  match w_pc fr with
  | AtStart => true
  | _ => false
  end.

Definition starting (ws : list worker_frame) : nat :=
  length (filter (fun fr => at_start fr = true) ws).

(** The labels of the steps of loop [l], and of any loop. *)
Definition loop_of_label (a : label) : option nat :=
  match a with
  | TaskCall l | TaskDone l _ _ | TaskSleep l | TaskSleepRefused l => Some l
  | _ => None
  end.

(** ** A loop that reads one tuple throughout *)

Definition is_call (l : nat) (a : label) : bool :=
  match a with
  | TaskCall l' => bool_decide (l' = l)
  | _ => false
  end.

Definition is_sleep (l : nat) (a : label) : bool :=
  match a with
  | TaskSleep l' => bool_decide (l' = l)
  | _ => false
  end.

(** The calls and the granted sleeps of loop [l] that a run asks for. *)
Definition calls_in (l : nat) (ls : list label) : nat :=
  length (filter (fun a => is_call l a = true) ls).

Definition sleeps_in (l : nat) (ls : list label) : nat :=
  length (filter (fun a => is_sleep l a = true) ls).

(** Where a step labelled [a] takes loop [l] from [pc], when the cells that
    the loop reads hold interval [i] and action [f]. *)
Definition next_pc (l : nat) (i : Q) (f : action) (a : label) (pc : loop_pc) : loop_pc :=
  match a with
  | TaskCall l' => if decide (l' = l) then InAction f else pc
  | TaskDone l' o _ =>
      if decide (l' = l) then (if handled o then AtSleep else LoopDead) else pc
  | TaskSleep l' =>
      if decide (l' = l)
      then match time_sleep i with
           | SleepReturns => AtCall
           | SleepOverflowError | SleepValueError => LoopDead
           end
      else pc
  | TaskSleepRefused l' => if decide (l' = l) then LoopDead else pc
  | _ => pc
  end.

(** Where loop [l] must be for a step labelled [a] to be taken. *)
Definition pc_before (l : nat) (a : label) (pc : loop_pc) : Prop :=
  match a with
  | TaskCall l' => l' = l -> pc = AtCall
  | TaskDone l' _ _ => l' = l -> exists g, pc = InAction g
  | TaskSleep l' | TaskSleepRefused l' => l' = l -> pc = AtSleep
  | _ => True
  end.

(** The sleep that a step labelled [a] adds to those of loop [l]. *)
Definition slept (l : nat) (i : Q) (a : label) : list Q :=
  if is_sleep l a
  then match time_sleep i with
       | SleepReturns => [i]
       | SleepOverflowError | SleepValueError => []
       end
  else [].

(** 1 inside a turn (the call made, the sleep not yet over), 0 between
    turns. *)
Definition in_turn (pc : loop_pc) : nat :=
  match pc with
  | InAction _ | AtSleep => 1
  | AtCall | LoopDead => 0
  end.

(** The calls that a loop can still make when its interval is one that
    [time.sleep] rejects. *)
Definition calls_left (pc : loop_pc) : nat :=
  match pc with
  | AtCall => 1
  | _ => 0
  end.

(** A step that leaves loop [l], started by worker [w], its tuple and its
    life: it is no [get] of [w], which would rebind the cells that the loop
    reads; every call of [l] that ends does so by a return or by an exception
    that line 223 catches; the operating system grants each sleep of [l]. *)
Definition lets_turn (l w : nat) (a : label) : Prop :=
  a <> WorkerGet w
  /\ a <> TaskSleepRefused l
  /\ forall o d, a = TaskDone l o d -> handled o = true.

(** No variable is read before it is bound: a worker that is past line 218
    has its cells bound, no worker has left its [while], and the frame that
    a loop's closure refers to exists and has its cells bound. *)
Definition threads_ok (s : state) : Prop :=
  (forall w fr, workers s !! w = Some fr ->
     w_pc fr <> WorkerDead /\ (w_pc fr = AtStart -> is_Some (w_cells fr)))
  /\ (forall l th, loops s !! l = Some th ->
        exists fr t, workers s !! r_frame th = Some fr /\ w_cells fr = Some t).

(** The cells of every worker hold the tuple it took last. *)
Definition cells_are_last_taken (s : state) : Prop :=
  forall w, (fr ← workers s !! w; w_cells fr) = last (taken_by w (history s)).

(** Every tuple taken from the queue is a loop, a logged failure to start
    one, or in the hands of a worker that is about to start one. *)
Definition taken_accounted (s : state) : Prop :=
  length (deliveries (history s))
  = length (loops s) + spawn_failures (log s) + starting (workers s).

(** Each of the thread starts of [_start_task_scheduler] left a worker or a
    line in the log. *)
Definition starts_accounted (s : state) : Prop :=
  if scheduler_started s
  then length (workers s) + worker_start_failures (log s) = max_worker_threads s
  else workers s = [] /\ worker_start_failures (log s) = 0.

(** One worker serving [n] tuples one after the other. *)
Fixpoint serve (w n : nat) : list label :=
  match n with
  | O => []
  | S n' => WorkerGet w :: WorkerStart w Started :: serve w n'
  end.

(** A task with a negative interval, scheduled and launched, and one with
    an interval of 10^10 seconds. *)
Definition negative_interval_launched : list label :=
  [Schedule (-1) counting_action every_start_succeeds; WorkerGet 0; WorkerStart 0 Started].

Definition too_long_interval_launched : list label :=
  [Schedule 10000000000 counting_action every_start_succeeds;
   WorkerGet 0; WorkerStart 0 Started].

(** Tasks whose action raises at its first call: [ValueError] with an
    interval of 10^10 seconds, [ValueError] with interval -1, and
    [SystemExit] with interval 1. *)
Definition failing_task_too_long : list label :=
  too_long_interval_launched ++ cycle 0 (Raised (always_raises 0)) 0.

Definition failing_task_negative : list label :=
  negative_interval_launched ++ cycle 0 (Raised (always_raises 0)) 0.

Definition task_raising_system_exit : list label :=
  counting_task_launched ++ [TaskCall 0; TaskDone 0 (Raised (Exn SystemExit "bye")) 0].

(** What may happen around loop 0 of [counting_task_launched] while it
    makes two calls that raise: a second task is scheduled, taken by worker 1
    and launched, and its loop ends by [SystemExit]. *)
Definition two_failing_turns_among_others : list label :=
  [TaskCall 0; Schedule 5 earn_money_simulation every_start_succeeds;
   TaskDone 0 (Raised (always_raises 0)) 0; WorkerGet 1; TaskSleep 0;
   WorkerStart 1 Started; TaskCall 1; TaskCall 0;
   TaskDone 1 (Raised (Exn SystemExit "bye")) 2;
   TaskDone 0 (Raised (always_raises 1)) 3; TaskSleep 0].

(** A run in which two workers take tuples in turn and one thread start
    fails. *)
Definition busy_run : list label :=
  run_prefix ++
  [WorkerGet 0; WorkerGet 1; WorkerStart 1 (CannotStart "can't start new thread");
   WorkerStart 0 Started; TaskCall 0;
   Schedule 5 counting_action no_thread_starts; WorkerGet 1].

(** A first call in which the thread starts numbered 1 and 3 fail. *)
Definition odd_starts_fail : list label :=
  [Schedule 1 counting_action (fun k => if Nat.even k then Started else CannotStart "no");
   WorkerGet 0].

(** The loop of the task with interval -1 after its first turn, and what
    the program may do next. *)
Definition ended_by_negative_interval : list label :=
  negative_interval_launched ++ cycle 0 Returned 0.

Definition later_activity : list label :=
  [Schedule 300 earn_money_simulation every_start_succeeds;
   WorkerGet 1; WorkerStart 1 Started; TaskCall 1;
   TaskDone 1 (Raised (Exn SystemExit "bye")) 2].
(** ** Callers of [schedule_task] that overlap, and starts from elsewhere *)

(** [schedule_task] takes no lock, and [_start_task_scheduler] does not
    look at [scheduler_started]: the flag is tested at line 211 only.  To
    say what that means, a call of [schedule_task] is cut here at its four
    lines, so that the calls of several threads can interleave, and a call
    of [_start_task_scheduler] from outside [schedule_task] is a step of its
    own.  The [for] of lines 231-235 stays one step. *)

(** A thread inside [schedule_task], after its [put]. *)
Inductive caller_pc :=
  | AtTest        (* line 211, the flag not yet read *)
  | AtSet         (* line 212, the flag was read as unset *)
  | AtStartCall   (* line 213, the flag is set, the call not yet made *)
  | CallerDone.   (* the call has returned *)

Record program := Program {
  shared : state;            (* what all threads share, and the threads started *)
  callers : list caller_pc   (* the calls of [schedule_task] made so far *)
}.

Definition program_init : program := Program init [].

Inductive plabel :=
  | Thread (a : label)
      (* a step as before; [Schedule] is a call that runs from line 210 to
         its return with no step of another thread in between *)
  | CallPut (interval_sec : Q) (task_fn : action)   (* a call begins: line 210 *)
  | CallTest (c : nat)                              (* line 211 *)
  | CallSet (c : nat)                               (* line 212 *)
  | CallStart (c : nat) (starts : nat -> start_outcome)   (* line 213 *)
  | DirectStart (starts : nat -> start_outcome).
      (* [self._start_task_scheduler()] called from outside [schedule_task] *)

Definition set_caller (c : nat) (pc : caller_pc) (p : program) : program :=
  Program (shared p) (<[c := pc]> (callers p)).

Definition is_Schedule (a : label) : bool :=
  match a with
  | Schedule _ _ _ => true
  | _ => false
  end.

Definition pstep (a : plabel) (p : program) : option program :=
  match a with
  | Thread a =>
      s ← step a (shared p);
      Some (Program s (if is_Schedule a then callers p ++ [CallerDone] else callers p))
  | CallPut i f =>
      Some (Program (snd (queue_put (i, f) (shared p))) (callers p ++ [AtTest]))
  | CallTest c =>
      pc ← callers p !! c;
      match pc with
      | AtTest =>
          Some (set_caller c (if scheduler_started (shared p) then CallerDone else AtSet) p)
      | _ => None
      end
  | CallSet c =>
      pc ← callers p !! c;
      match pc with
      | AtSet =>
          Some (Program (with_scheduler_started true (shared p))
                  (<[c := AtStartCall]> (callers p)))
      | _ => None
      end
  | CallStart c starts =>
      pc ← callers p !! c;
      match pc with
      | AtStartCall =>
          Some (Program (snd (_start_task_scheduler starts (shared p)))
                  (<[c := CallerDone]> (callers p)))
      | _ => None
      end
  | DirectStart starts =>
      Some (Program (snd (_start_task_scheduler starts (shared p))) (callers p))
  end.

Fixpoint pexec (ls : list plabel) (p : program) : option program :=
  match ls with
  | [] => Some p
  | a :: ls' => p' ← pstep a p; pexec ls' p'
  end.

(** The state that a run from [program_init] ends in. *)
Definition after_prun (ls : list plabel) : state :=
  shared (default program_init (pexec ls program_init)).

Definition caller_returned (pc : caller_pc) : bool :=
  match pc with
  | CallerDone => true
  | _ => false
  end.

(** The calls that have not returned. *)
Definition pending (cs : list caller_pc) : list caller_pc :=
  filter (fun pc => caller_returned pc = false) cs.

(** A label with which a call of [schedule_task] begins. *)
Definition enters (a : plabel) : bool :=
  match a with
  | CallPut _ _ => true
  | Thread a => is_Schedule a
  | _ => false
  end.

Definition is_DirectStart (a : plabel) : bool :=
  match a with
  | DirectStart _ => true
  | _ => false
  end.

(** A run in which every call of [schedule_task] begins after the calls
    before it have returned, and in which [_start_task_scheduler] is called
    by [schedule_task] only. *)
Fixpoint one_call_at_a_time (ls : list plabel) (p : program) : bool :=
  match ls with
  | [] => true
  | a :: ls' =>
      negb (is_DirectStart a)
      && (if enters a then forallb caller_returned (callers p) else true)
      && match pstep a p with
         | Some p' => one_call_at_a_time ls' p'
         | None => true
         end
  end.

(** The call of [Elohim.run] at line 240 (through [generate_goals]),
    followed by a second call of [_start_task_scheduler]. *)
Definition started_twice : list plabel :=
  [Thread (Schedule 3600 generate_thought every_start_succeeds);
   DirectStart every_start_succeeds].

(** Two calls of [schedule_task] by two threads, each of which reads the
    flag before the other has set it. *)
Definition two_callers_race : list plabel :=
  [CallPut 3600 generate_thought; CallPut 300 earn_money_simulation;
   CallTest 0; CallTest 1; CallSet 0; CallSet 1;
   CallStart 0 every_start_succeeds; CallStart 1 every_start_succeeds].

(** The two calls of [Elohim.run], the second cut at its lines, with steps
    of a worker and of a loop in between. *)
Definition run_calls_in_turn : list plabel :=
  [CallPut 3600 generate_thought; CallTest 0; CallSet 0;
   CallStart 0 every_start_succeeds;
   Thread (WorkerGet 0); Thread (WorkerStart 0 Started);
   CallPut 300 earn_money_simulation; Thread (TaskCall 0); CallTest 1;
   Thread (WorkerGet 1)].

(** What holds of the flag and of the number of entries into
    [_start_task_scheduler] when calls do not overlap. *)
Definition entries (p : program) : nat := scheduler_starts (history (shared p)).

Definition one_caller_inv (p : program) : Prop :=
  (callers p = [] -> entries p = 0)
  /\ (Exists (fun pc => caller_returned pc = true) (callers p) ->
       scheduler_started (shared p) = true /\ entries p = 1)
  /\ ((pending (callers p) = []
       /\ entries p = (if scheduler_started (shared p) then 1 else 0))
      \/ (pending (callers p) = [AtTest]
          /\ entries p = (if scheduler_started (shared p) then 1 else 0))
      \/ (pending (callers p) = [AtSet]
          /\ scheduler_started (shared p) = false /\ entries p = 0)
      \/ (pending (callers p) = [AtStartCall]
          /\ scheduler_started (shared p) = true /\ entries p = 0)).

(** Each entry into [_start_task_scheduler] leaves [max_worker_threads]
    workers or log lines. *)
Definition entries_accounted (p : program) : Prop :=
  max_worker_threads (shared p) = 5
  /\ length (workers (shared p)) + worker_start_failures (log (shared p))
     = 5 * entries p.

(** * The memory of [Elohim]

    The methods of [Elohim] that keep its record of what it did, in
    [self.state] and in [elohim_memory/state.json] (elohim.py, lines 83-107,
    148-195, 237-258).  Methods are modelled as called one at a time.

    Python strings are Rocq strings, one character per code point below 256.
    [self.state] is a [dict] with [str] keys, as [_load_state] makes it and
    as [json.load] returns it for a file that holds a JSON object; the file
    is known by the value that [json.dump] wrote, and reading and writing it
    succeed.  What the world answers (the clock, the voice engine, [git], the
    language model) is an argument of the method that asks. *)

From Stdlib Require DecimalString.

Module Elohim.

Import Stdlib.Strings.Ascii.

(** The values that [json.load] returns.  A [float] is known by its
    literal; the methods modelled here never compute with one. *)
#[local] Unset Elimination Schemes.
Inductive pyval :=
  | PNone
  | PBool (b : bool)
  | PInt (z : Z)
  | PFloat (literal : string)
  | PStr (s : string)
  | PList (xs : list pyval)
  | PDict (kvs : list (string * pyval)).
#[local] Set Elimination Schemes.

(** [type(v).__name__] *)
Definition type_name (v : pyval) : string :=
  match v with
  | PNone => "NoneType"
  | PBool _ => "bool"
  | PInt _ => "int"
  | PFloat _ => "float"
  | PStr _ => "str"
  | PList _ => "list"
  | PDict _ => "dict"
  end.

(** A [dict] with [str] keys, in insertion order. *)
Fixpoint dict_get (k : string) (kvs : list (string * pyval)) : option pyval :=
  match kvs with
  | [] => None
  | (k', v) :: rest => if decide (k' = k) then Some v else dict_get k rest
  end.

(** [d[k] = v]: an existing key keeps its place, a new one goes last. *)
Fixpoint dict_set (k : string) (v : pyval) (kvs : list (string * pyval))
    : list (string * pyval) :=
  match kvs with
  | [] => [(k, v)]
  | (k', v') :: rest =>
      if decide (k' = k) then (k', v) :: rest else (k', v') :: dict_set k v rest
  end.

(** What [self.state[k].append(x)] can raise. *)
Inductive lookup_error :=
  | KeyError (key : string)
  | AttributeError (type_of_value : string).

(** [str(e)] for these, for a key without quotes or escapes. *)
Definition error_str (e : lookup_error) : string :=
  match e with
  | KeyError k => "'" +:+ k +:+ "'"
  | AttributeError ty => "'" +:+ ty +:+ "' object has no attribute 'append'"
  end.

Inductive error :=
  | Lookup (e : lookup_error)
  | ValueError
  | Scheduler (e : exn).

Inductive res (A : Type) :=
  | Done (a : A)
  | Fail (e : error).
Arguments Done {A} a.
Arguments Fail {A} e.

(** [d[k].append(x)] *)
Definition dict_append (k : string) (x : pyval) (kvs : list (string * pyval))
    : lookup_error + list (string * pyval) :=
  match dict_get k kvs with
  | None => inl (KeyError k)
  | Some (PList xs) => inr (dict_set k (PList (xs ++ [x])) kvs)
  | Some v => inl (AttributeError (type_name v))
  end.

(** The first arguments of the calls of [_remember] in the class. *)
Inductive category :=
  | CPrediction | CTrade | CMusic | CVideo | CUpgrade | CRepoUpdate
  | CThought | CNews | CNewsError | CEarning | CMonetization.

Definition category_str (c : category) : string :=
  match c with
  | CPrediction => "prediction"
  | CTrade => "trade"
  | CMusic => "music"
  | CVideo => "video"
  | CUpgrade => "upgrade"
  | CRepoUpdate => "repo_update"
  | CThought => "thought"
  | CNews => "news"
  | CNewsError => "news_error"
  | CEarning => "earning"
  | CMonetization => "monetization"
  end.

(** [str.upper] on ASCII text. *)
Definition ascii_upper (a : Ascii.ascii) : Ascii.ascii :=
  let n := Ascii.nat_of_ascii a in
  if (97 <=? n)%nat && (n <=? 122)%nat then Ascii.ascii_of_nat (n - 32) else a.

Fixpoint str_upper (s : string) : string :=
  match s with
  | EmptyString => EmptyString
  | String a s' => String (ascii_upper a) (str_upper s')
  end.

(** [s[::-1]] *)
Fixpoint reverse_onto (s acc : string) : string :=
  match s with
  | EmptyString => acc
  | String a s' => reverse_onto s' (String a acc)
  end.

Definition str_reverse (s : string) : string := reverse_onto s EmptyString.

(** [s.strip("v")] *)
Fixpoint lstrip_v (s : string) : string :=
  match s with
  | String "v"%char s' => lstrip_v s'
  | _ => s
  end.

Definition strip_v (s : string) : string :=
  str_reverse (lstrip_v (str_reverse (lstrip_v s))).

(** [s.split(".")] *)
Fixpoint split_dot_from (cur : string) (s : string) : list string :=
  match s with
  | EmptyString => [str_reverse cur]
  | String "."%char s' => str_reverse cur :: split_dot_from EmptyString s'
  | String a s' => split_dot_from (String a cur) s'
  end.

Definition split_dot (s : string) : list string := split_dot_from EmptyString s.

(** The line feed that [print(f"\n...")] begins with. *)
Definition newline : string :=
  String (Ascii.Ascii false true false true false false false false) EmptyString.

(** ** The object *)

Record elohim := Elohim {
  self_voice_enabled : bool;          (* line 64-71; the engine exists iff set *)
  self_version : string;              (* line 73 *)
  self_state : list (string * pyval); (* line 78 *)
  state_file : option (list (string * pyval)); (* state.json; [None]: no such file *)
  stdout : list string;               (* the arguments of [print], in order *)
  spoken : list string;               (* what the voice engine said *)
  sched : state                       (* lines 79-81, the threads, the log *)
}.

Definition with_self_state (d : list (string * pyval)) (e : elohim) : elohim :=
  {| self_voice_enabled := self_voice_enabled e;
     self_version := self_version e;
     self_state := d;
     state_file := state_file e;
     stdout := stdout e;
     spoken := spoken e;
     sched := sched e |}.

Definition with_self_version (v : string) (e : elohim) : elohim :=
  {| self_voice_enabled := self_voice_enabled e;
     self_version := v;
     self_state := self_state e;
     state_file := state_file e;
     stdout := stdout e;
     spoken := spoken e;
     sched := sched e |}.

Definition with_state_file (f : option (list (string * pyval))) (e : elohim) : elohim :=
  {| self_voice_enabled := self_voice_enabled e;
     self_version := self_version e;
     self_state := self_state e;
     state_file := f;
     stdout := stdout e;
     spoken := spoken e;
     sched := sched e |}.

Definition with_sched (s : state) (e : elohim) : elohim :=
  {| self_voice_enabled := self_voice_enabled e;
     self_version := self_version e;
     self_state := self_state e;
     state_file := state_file e;
     stdout := stdout e;
     spoken := spoken e;
     sched := s |}.

(** [print(line)] *)
Definition print (line : string) (e : elohim) : elohim :=
  {| self_voice_enabled := self_voice_enabled e;
     self_version := self_version e;
     self_state := self_state e;
     state_file := state_file e;
     stdout := stdout e ++ [line];
     spoken := spoken e;
     sched := sched e |}.

Definition say (text : string) (e : elohim) : elohim :=
  {| self_voice_enabled := self_voice_enabled e;
     self_version := self_version e;
     self_state := self_state e;
     state_file := state_file e;
     stdout := stdout e;
     spoken := spoken e ++ [text];
     sched := sched e |}.

(** [logging.info], [logging.warning] and [logging.error] write the message
    to the one sink, whose format shows no level (line 48). *)
Definition logging (m : string) (e : elohim) : elohim :=
  with_sched (logged m (sched e)) e.

(** ** [_load_state] and [_save_state], lines 83-92 *)

Definition default_state (version : string) : list (string * pyval) :=
  [("knowledge", PList []); ("thoughts", PList []); ("version", PStr version);
   ("goals", PList []); ("earnings", PInt 0)].

Definition _load_state (e : elohim) : elohim :=
  match state_file e with
  | Some d => with_self_state d e
  | None => with_self_state (default_state (self_version e)) e
  end.

Definition _save_state (e : elohim) : elohim :=
  with_state_file (Some (self_state e)) e.

(** ** [__init__], lines 62-81 *)

(** [logo] is what line 63 prints; [voice_init] is [None] when [pyttsx3]
    loads, else the message of the exception; [file] is the content of
    [state.json] if it exists.  [self.id], which nothing reads, and the
    directory [self.memory_path], of which only [state.json] matters here,
    have no field. *)
Definition __init__ (logo : string) (voice_init : option string)
    (file : option (list (string * pyval))) : elohim :=
  let e0 :=
    {| self_voice_enabled := false;
       self_version := "v3.1";
       self_state := [];
       state_file := file;
       stdout := [logo];
       spoken := [];
       sched := init |} in
  let e1 :=
    match voice_init with
    | None =>
        {| self_voice_enabled := true;
           self_version := self_version e0;
           self_state := self_state e0;
           state_file := state_file e0;
           stdout := stdout e0;
           spoken := spoken e0;
           sched := sched e0 |}
    | Some msg => logging ("Voice engine initialization failed: " +:+ msg) e0
    end in
  _load_state e1.

(** ** [speak], lines 94-101 *)

(** [voice] is [None] when the engine speaks, else the message of the
    exception it raises. *)
Definition speak (voice : option string) (text : string) (e : elohim) : elohim :=
  let e1 := print (newline +:+ "[ELOHIM]: " +:+ text) e in
  if self_voice_enabled e1 then
    match voice with
    | None => say text e1
    | Some msg => logging ("Speech error: " +:+ msg) e1
    end
  else e1.

(** ** [_remember], lines 191-195 *)

(** [now] is [datetime.datetime.now().isoformat()]. *)
Definition _remember (now : string) (c : category) (data : string) (e : elohim)
    : res unit * elohim :=
  let entry :=
    PDict [("time", PStr now); ("type", PStr (category_str c)); ("data", PStr data)] in
  match dict_append "knowledge" entry (self_state e) with
  | inl err => (Fail (Lookup err), e)
  | inr d =>
      (Done tt,
       logging ("[" +:+ str_upper (category_str c) +:+ "] " +:+ data)
         (_save_state (with_self_state d e)))
  end.

(** ** [predict_future], lines 103-107 *)

Definition predict_future (now : string) (voice : option string) (topic : string)
    (e : elohim) : res string * elohim :=
  let prediction :=
    "By 2045, " +:+ topic +:+
    " will be governed by sentient economic protocols powered by quantum AI." in
  match _remember now CPrediction prediction e with
  | (Done _, e1) => (Done prediction, speak voice prediction e1)
  | (Fail err, e1) => (Fail err, e1)
  end.

(** ** [generate_thought], lines 165-182 *)

(** What lines 166-179 find: no client or no key, a reply, or an exception
    in the [try]. *)
Inductive llm :=
  | NoLLM
  | Reply (content : string)
  | LLMError (msg : string).

Definition generate_thought (model : llm) (now : string) (voice : option string)
    (prompt : string) (e : elohim) : res string * elohim :=
  let thought :=
    match model with
    | NoLLM => "[Simulated Thought]: " +:+ str_reverse prompt
    | Reply content => content
    | LLMError msg => "[Error generating thought]: " +:+ msg
    end in
  match _remember now CThought thought e with
  | (Done _, e1) => (Done thought, speak voice thought e1)
  | (Fail err, e1) => (Fail err, e1)
  end.

(** ** [fetch_upgrade_from_repo] and [self_upgrade], lines 148-163 *)

(** [git] is [None] when [git pull] succeeds, else the message of the
    exception of [subprocess.run]. *)
Definition fetch_upgrade_from_repo (git : option string) (now : string)
    (repo_url : string) (e : elohim) : elohim :=
  match git with
  | Some msg => logging ("Repo update failed: " +:+ msg) e
  | None =>
      match _remember now CRepoUpdate ("Pulled from " +:+ repo_url) e with
      | (Done _, e1) => e1
      | (Fail (Lookup err), e1) => logging ("Repo update failed: " +:+ error_str err) e1
      | (Fail _, e1) => e1
      end
  end.

(** [py_int] is the builtin [int] on strings ([None]: [ValueError]) and
    [py_str] the builtin [str] on integers. *)
Definition self_upgrade (py_int : string -> option Z) (py_str : Z -> string)
    (git : option string) (now_pull now_upgrade : string) (voice : option string)
    (e : elohim) : res unit * elohim :=
  let e1 := fetch_upgrade_from_repo git now_pull "https://github.com/openai/elohim" e in
  match map py_int (split_dot (strip_v (self_version e1))) with
  | [Some major; Some minor] =>
      let version := "v" +:+ py_str major +:+ "." +:+ py_str (minor + 1)%Z in
      let e2 := with_self_version version e1 in
      let e3 := with_self_state (dict_set "version" (PStr version) (self_state e2)) e2 in
      let e4 := _save_state e3 in
      let upgrade_msg := "Upgraded to Elohim version " +:+ version in
      match _remember now_upgrade CUpgrade upgrade_msg e4 with
      | (Done _, e5) => (Done tt, speak voice upgrade_msg e5)
      | (Fail err, e5) => (Fail err, e5)
      end
  | _ => (Fail ValueError, e1)
  end.

(** ** [generate_goals], lines 237-240 *)

(** [fn] is the function object that the [lambda] of line 240 makes;
    [starts] tells how the thread starts of [schedule_task] end. *)
Definition generate_goals (model : llm) (now : string) (voice : option string)
    (fn : action) (starts : nat -> start_outcome) (e : elohim) : res unit * elohim :=
  match generate_thought model now voice "Generate a useful self-evolution goal" e with
  | (Fail err, e1) => (Fail err, e1)
  | (Done goal, e1) =>
      match dict_append "goals" (PStr goal) (self_state e1) with
      | inl err => (Fail (Lookup err), e1)
      | inr d =>
          let e2 := with_self_state d e1 in
          match schedule_task 3600 fn starts (sched e2) with
          | (Ok _, s) => (Done tt, with_sched s e2)
          | (Raise x, s) => (Fail (Scheduler x), with_sched s e2)
          end
      end
  end.

(** ** [suggest_monetization_opportunities], lines 248-258 *)

Definition ideas : list string :=
  ["Create a YouTube automation channel with Elohim's video generation";
   "Sell AI-generated music on royalty-free marketplaces";
   "Offer AI content-writing as a freelancer";
   "Use Elohim to write trading bots for crypto or stocks";
   "Launch a productivity automation SaaS with Elohim as backend"].

(** [for idea in todo], the turns numbered from [k]; [nows] and [voices]
    give the clock and the voice engine of each turn. *)
Fixpoint for_ideas (todo : list string) (k : nat) (nows : nat -> string)
    (voices : nat -> option string) (e : elohim) : res unit * elohim :=
  match todo with
  | [] => (Done tt, e)
  | idea :: rest =>
      match _remember (nows k) CMonetization idea e with
      | (Done _, e1) => for_ideas rest (S k) nows voices (speak (voices k) idea e1)
      | (Fail err, e1) => (Fail err, e1)
      end
  end.

Definition suggest_monetization_opportunities (nows : nat -> string)
    (voices : nat -> option string) (e : elohim) : res unit * elohim :=
  for_ideas ideas 0 nows voices e.

(** ** Calls in sequence *)

Inductive call :=
  | Predict_future (now : string) (voice : option string) (topic : string)
  | Generate_thought (model : llm) (now : string) (voice : option string)
      (prompt : string)
  | Self_upgrade (py_int : string -> option Z) (py_str : Z -> string)
      (git : option string) (now_pull now_upgrade : string) (voice : option string)
  | Generate_goals (model : llm) (now : string) (voice : option string)
      (fn : action) (starts : nat -> start_outcome)
  | Suggest_monetization_opportunities (nows : nat -> string)
      (voices : nat -> option string).

Definition forget {A} (r : res A * elohim) : res unit * elohim :=
  match r with
  | (Done _, e) => (Done tt, e)
  | (Fail err, e) => (Fail err, e)
  end.

Definition perform (c : call) (e : elohim) : res unit * elohim :=
  match c with
  | Predict_future now voice topic => forget (predict_future now voice topic e)
  | Generate_thought model now voice prompt =>
      forget (generate_thought model now voice prompt e)
  | Self_upgrade py_int py_str git now_pull now_upgrade voice =>
      self_upgrade py_int py_str git now_pull now_upgrade voice e
  | Generate_goals model now voice fn starts =>
      generate_goals model now voice fn starts e
  | Suggest_monetization_opportunities nows voices =>
      suggest_monetization_opportunities nows voices e
  end.

(** The calls one after the other; an exception that a call lets through
    ends the sequence, as it ends [run]. *)
Fixpoint perform_all (cs : list call) (e : elohim) : res unit * elohim :=
  match cs with
  | [] => (Done tt, e)
  | c :: rest =>
      match perform c e with
      | (Done _, e1) => perform_all rest e1
      | (Fail err, e1) => (Fail err, e1)
      end
  end.

(** The list under key [k], if there is one. *)
Definition list_at (k : string) (d : list (string * pyval)) : option (list pyval) :=
  match dict_get k d with
  | Some (PList xs) => Some xs
  | _ => None
  end.

(** A state in which ["knowledge"] and ["goals"] are lists. *)
Definition well_formed (d : list (string * pyval)) : Prop :=
  is_Some (list_at "knowledge" d) /\ is_Some (list_at "goals" d).

(** How the state can differ after calls: the lists under ["knowledge"] and
    ["goals"] have grown at the end, and no key other than these two and
    ["version"] has changed. *)
Definition memory_extends (d d' : list (string * pyval)) : Prop :=
  (forall k, k <> "knowledge" -> k <> "goals" -> k <> "version" ->
     dict_get k d' = dict_get k d)
  /\ (forall xs, list_at "knowledge" d = Some xs ->
        exists more, list_at "knowledge" d' = Some (xs ++ more))
  /\ (forall gs, list_at "goals" d = Some gs ->
        exists more, list_at "goals" d' = Some (gs ++ more)).

(** The entry that [_remember] makes. *)
Definition entry (now : string) (c : category) (data : string) : pyval :=
  PDict [("time", PStr now); ("type", PStr (category_str c)); ("data", PStr data)].

(** No character of [s] is [a]. *)
Fixpoint free_of (a : ascii) (s : string) : bool :=
  match s with
  | EmptyString => true
  | String b s' => negb (Ascii.eqb a b) && free_of a s'
  end.

(** The text that [generate_thought] arrives at, lines 166-179. *)
Definition thought_of (model : llm) (prompt : string) : string :=
  match model with
  | NoLLM => "[Simulated Thought]: " +:+ str_reverse prompt
  | Reply content => content
  | LLMError msg => "[Error generating thought]: " +:+ msg
  end.

Definition is_upgrade (c : call) : bool :=
  match c with
  | Self_upgrade _ _ _ _ _ _ => true
  | _ => false
  end.

(** ** The builtins [int] and [str] on decimal numerals *)

(** The characters that [int] skips at both ends of its argument, among the
    code points below 256: tab, line feed, vertical tab, form feed, carriage
    return, space, next line (133) and no-break space (160). *)
Definition is_space (a : ascii) : bool :=
  let n := nat_of_ascii a in
  ((9 <=? n)%nat && (n <=? 13)%nat) || (n =? 32)%nat || (n =? 133)%nat
  || (n =? 160)%nat.

Definition digit_value (a : ascii) : option Z :=
  let n := nat_of_ascii a in
  if (48 <=? n)%nat && (n <=? 57)%nat then Some (Z.of_nat (n - 48)) else None.

Fixpoint lstrip_space (s : string) : string :=
  match s with
  | String a s' => if is_space a then lstrip_space s' else s
  | EmptyString => s
  end.

Definition strip_space (s : string) : string :=
  str_reverse (lstrip_space (str_reverse (lstrip_space s))).

(** Digits, with single underscores between digits; [acc] is the value read
    so far and [after_digit] tells whether the character before was a
    digit. *)
Fixpoint read_digits (acc : Z) (after_digit : bool) (s : string) : option Z :=
  match s with
  | EmptyString => if after_digit then Some acc else None
  | String a s' =>
      match digit_value a with
      | Some d => read_digits (10 * acc + d) true s'
      | None =>
          if Ascii.eqb a "_"%char && after_digit then read_digits acc false s' else None
      end
  end.

(** [int(s)] in base 10, for a string of code points below 256 ([None]:
    [ValueError]): white space at both ends, a sign, and digits with single
    underscores between them.  [str(z)] writes the digits without leading
    zeros, after [-] for a negative number.  The limit that CPython 3.11
    puts on the number of digits of either conversion (4300 unless set
    otherwise) is left out. *)
Definition decimal_int (s : string) : option Z :=
  match strip_space s with
  | String "+"%char s' => read_digits 0 false s'
  | String "-"%char s' => z ← read_digits 0 false s'; Some (- z)%Z
  | s' => read_digits 0 false s'
  end.

Definition decimal_str (z : Z) : string :=
  DecimalString.NilZero.string_of_int (Z.to_int z).

(** A fresh object on a machine without voice engine and without
    [state.json]. *)
Definition fresh : elohim := __init__ "Elohim" (Some "No module named 'pyttsx3'") None.

(** The calls of [run] that are modelled, in its order (lines 262-271), on a
    machine without language model. *)
Definition run_calls : list call :=
  [Predict_future "t1" None "post-human governance";
   Self_upgrade decimal_int decimal_str None "t2" "t3" None;
   Generate_thought NoLLM "t4" None "What lies beyond intelligence?";
   Generate_goals NoLLM "t5" None 7 every_start_succeeds;
   Suggest_monetization_opportunities (fun _ => "t6") (fun _ => None)].

End Elohim.

(** * Properties *)

(** ** What [_start_task_scheduler] and [schedule_task] compute *)

Lemma started_count_le starts n k : started_count starts n k <= n.
Proof.
  revert k. induction n as [|n IH]; intros k; simpl; [lia|].
  specialize (IH (S k)). destruct (starts k); lia.
Qed.

Lemma started_count_all starts n k :
  (forall j, k <= j < k + n -> starts j = Started) -> started_count starts n k = n.
Proof.
  revert k. induction n as [|n IH]; intros k Hall; simpl; [done|].
  rewrite (Hall k) by lia. f_equal. apply IH. intros j Hj. apply Hall. lia.
Qed.

Lemma started_count_none starts n k :
  (forall j, k <= j < k + n -> starts j <> Started) -> started_count starts n k = 0.
Proof.
  revert k. induction n as [|n IH]; intros k Hnone; simpl; [done|].
  destruct (starts k) eqn:E.
  - exfalso. apply (Hnone k); [lia | done].
  - apply IH. intros j Hj. apply Hnone. lia.
Qed.

Lemma start_workers_loop starts n k s :
  for_range n k
    (fun j =>
       try_except (Thread_start Tworker (starts j)) is_RuntimeError
         (fun e => logging_error ("Worker thread failed to start: " +:+ exc_msg e))) s
  = (Ok tt,
     {| task_queue := task_queue s;
        max_worker_threads := max_worker_threads s;
        scheduler_started := scheduler_started s;
        workers := workers s ++ replicate (started_count starts n k) fresh_worker;
        loops := loops s;
        log := log s ++ failed_starts starts n k;
        history := history s ++
          map EvWorker (seq (length (workers s)) (started_count starts n k)) |}).
Proof.
  revert k s. induction n as [|n IH]; intros k s.
  - simpl. unfold ret. destruct s; simpl. by rewrite !app_nil_r.
  - simpl. unfold bind at 1, try_except, Thread_start.
    destruct (starts k) as [|m]; simpl.
    + rewrite IH. simpl. rewrite length_app. simpl.
      rewrite <- !app_assoc. simpl.
      by replace (length (workers s) + 1) with (S (length (workers s))) by lia.
    + unfold raise, logging_error. simpl. rewrite IH. simpl.
      by rewrite <- !app_assoc.
Qed.

Lemma start_task_scheduler_spec starts s :
  _start_task_scheduler starts s
  = (Ok tt,
     {| task_queue := task_queue s;
        max_worker_threads := max_worker_threads s;
        scheduler_started := scheduler_started s;
        workers := workers s ++
          replicate (started_count starts (max_worker_threads s) 0) fresh_worker;
        loops := loops s;
        log := log s ++ failed_starts starts (max_worker_threads s) 0;
        history := history s ++ EvStartScheduler ::
          map EvWorker (seq (length (workers s))
                          (started_count starts (max_worker_threads s) 0)) |}).
Proof.
  unfold _start_task_scheduler. rewrite start_workers_loop. simpl.
  by rewrite <- app_assoc.
Qed.

Lemma schedule_task_spec i f starts s :
  schedule_task i f starts s
  = (Ok tt,
     if scheduler_started s then
       observed (EvPut (i, f)) (with_task_queue (task_queue s ++ [(i, f)]) s)
     else
       {| task_queue := task_queue s ++ [(i, f)];
          max_worker_threads := max_worker_threads s;
          scheduler_started := true;
          workers := workers s ++
            replicate (started_count starts (max_worker_threads s) 0) fresh_worker;
          loops := loops s;
          log := log s ++ failed_starts starts (max_worker_threads s) 0;
          history := history s ++ EvPut (i, f) :: EvStartScheduler ::
            map EvWorker (seq (length (workers s))
                            (started_count starts (max_worker_threads s) 0)) |}).
Proof.
  unfold schedule_task, bind, queue_put. simpl.
  destruct (scheduler_started s); simpl; [done|].
  rewrite start_task_scheduler_spec. simpl. by rewrite <- app_assoc.
Qed.

(** ** Steps and runs *)

Lemma step_transition a s s' : step a s = Some s' <-> transition a s s'.
Proof.
  split.
  - destruct a as [i f starts|w|w o|l|l o d|l|l]; simpl.
    + rewrite schedule_task_spec. simpl.
      destruct (scheduler_started s) eqn:Hs; intros [= <-]; by constructor.
    + unfold worker_get. destruct (workers s !! w) as [[pc c]|] eqn:Hw; simpl; [|done].
      destruct pc, (task_queue s) eqn:Hq; intros [= <-]. by econstructor.
    + unfold worker_start. destruct (workers s !! w) as [[pc c]|] eqn:Hw; simpl; [|done].
      destruct pc, c as [t|]; try done.
      destruct o; simpl; intros [= <-]; by constructor.
    + unfold task_call, cells_of.
      destruct (loops s !! l) as [[w pc c]|] eqn:Hl; simpl; [|done].
      destruct pc; try done.
      destruct (workers s !! w) as [fr|] eqn:Hw; simpl; [|done].
      destruct (w_cells fr) as [t|] eqn:Hc; simpl; [|done].
      intros [= <-]. by econstructor.
    + unfold task_done.
      destruct (loops s !! l) as [[w pc c]|] eqn:Hl; simpl; [|done].
      destruct pc; try done.
      destruct (Qle_bool 0 d) eqn:Hd; [|done].
      destruct o as [|e]; [intros [= <-]; by econstructor|].
      destruct (is_Exception (exc_cls e)) eqn:He; intros [= <-]; by econstructor.
    + unfold task_sleep, cells_of.
      destruct (loops s !! l) as [[w pc c]|] eqn:Hl; simpl; [|done].
      destruct pc; try done.
      destruct (workers s !! w) as [fr|] eqn:Hw; simpl; [|done].
      destruct (w_cells fr) as [t|] eqn:Hc; simpl; [|done].
      destruct (time_sleep t.1) eqn:Hi; intros [= <-];
        [by econstructor | |]; eapply T_sleep_raises; eauto; congruence.
    + unfold task_sleep_refused, cells_of.
      destruct (loops s !! l) as [[w pc c]|] eqn:Hl; simpl; [|done].
      destruct pc; try done.
      destruct (workers s !! w) as [fr|] eqn:Hw; simpl; [|done].
      destruct (w_cells fr) as [t|] eqn:Hc; simpl; [|done].
      destruct (time_sleep t.1) eqn:Hi; [|done|done].
      intros [= <-]. by econstructor.
  - destruct 1; simpl; rewrite ?schedule_task_spec;
      unfold worker_get, worker_start, task_call, task_done, task_sleep,
        task_sleep_refused, cells_of;
      repeat (match goal with H : _ = _ |- _ => rewrite H; clear H; simpl end);
      try done.
    by destruct (time_sleep t.1).
Qed.

Lemma exec_app ls1 ls2 s :
  exec (ls1 ++ ls2) s = s' ← exec ls1 s; exec ls2 s'.
Proof.
  revert s. induction ls1 as [|a ls1 IH]; intros s; simpl; [done|].
  destruct (step a s) as [s1|]; simpl; [apply IH | done].
Qed.

Lemma exec_cons a ls s : exec (a :: ls) s = s' ← step a s; exec ls s'.
Proof. reflexivity. Qed.

(** A property kept by every step holds along every run. *)
Lemma exec_invariant (P : state -> Prop) :
  (forall a s s', transition a s s' -> P s -> P s') ->
  forall ls s s', exec ls s = Some s' -> P s -> P s'.
Proof.
  intros Hstep ls. induction ls as [|a ls IH]; intros s s' Hrun HP; simpl in Hrun.
  - by injection Hrun as <-.
  - destruct (step a s) as [s1|] eqn:Ha; simpl in Hrun; [|done].
    apply (IH s1); [done|]. apply (Hstep a s); [by apply step_transition | done].
Qed.

(** The events of starting workers are invisible to a view that ignores
    [EvWorker]. *)
Lemma omap_EvWorker {A} (v : event -> option A) (ws : list nat) :
  (forall w, v (EvWorker w) = None) -> omap v (map EvWorker ws) = [].
Proof.
  intros Hv. induction ws as [|w ws IH]; simpl; [done|]. by rewrite Hv.
Qed.

(** ** The queue is first-in first-out and hands out each tuple once *)

Lemma fifo_inv_step a s s' : transition a s s' -> fifo_inv s -> fifo_inv s'.
Proof.
  unfold fifo_inv, deliveries, submitted. intros T I.
  destruct T as [| |w c t q s Hw Hq| | | | | | | | |]; simpl;
    rewrite ?omap_app, ?fmap_app; simpl;
    rewrite ?omap_EvWorker by done; simpl; rewrite ?app_nil_r; try done.
  - by rewrite app_assoc, I.
  - by rewrite app_assoc, I.
  - rewrite <- I, Hq, <- app_assoc. done.
Qed.

(** C4. Along every run of the program, the tuples taken from the queue so
    far, in the order taken, followed by the tuples still in the queue, are
    exactly the tuples put so far, in the order put.  So tuples leave in
    the order they entered, the k-th [get] (by whichever worker) returns the
    k-th tuple put, no tuple is returned twice and none disappears. *)
Theorem queue_fifo_exactly_once (ls : list label) (s : state) :
  exec ls init = Some s ->
  (deliveries (history s)).*2 ++ task_queue s = submitted (history s)
  /\ submitted (history s) = scheduled ls.
Proof.
  intros Hrun. split.
  - apply (exec_invariant fifo_inv fifo_inv_step ls init s Hrun). done.
  - cut (forall s0, exec ls s0 = Some s ->
           submitted (history s) = submitted (history s0) ++ scheduled ls).
    { intros Hgen. apply (Hgen init Hrun). }
    clear Hrun. induction ls as [|a ls IH]; intros s0 Hrun; simpl in Hrun.
    + injection Hrun as <-. by rewrite app_nil_r.
    + destruct (step a s0) as [s1|] eqn:Ha; simpl in Hrun; [|done].
      rewrite (IH s1 Hrun). apply step_transition in Ha.
      unfold submitted, scheduled.
      destruct Ha; simpl; rewrite ?omap_app; simpl;
        rewrite ?omap_EvWorker by done; rewrite <- ?app_assoc, ?app_nil_r; done.
Qed.

Lemma queue_fifo_exactly_once_witness :
  exists s,
    exec (run_prefix ++ [WorkerGet 0; WorkerStart 0 Started; WorkerGet 3]) init = Some s
    /\ (deliveries (history s)).*2 ++ task_queue s = submitted (history s)
    /\ deliveries (history s)
       = [(0, (3600%Q, generate_thought)); (3, (300%Q, earn_money_simulation))].
Proof.
  eexists. split; [vm_compute; reflexivity|]. split; [|reflexivity].
  apply (queue_fifo_exactly_once
           (run_prefix ++ [WorkerGet 0; WorkerStart 0 Started; WorkerGet 3])).
  vm_compute. reflexivity.
Defined.

(** ** [schedule_task] validates nothing and never raises *)

(** C6, as the specification has it, fails: a call with interval 0, or with
    a negative interval, is not rejected; it returns normally and its tuple
    is in the queue. *)
Lemma nonpositive_interval_not_rejected :
  ~ rejected (schedule_task 0 earn_money_simulation every_start_succeeds init) init
  /\ ~ rejected (schedule_task (-1) earn_money_simulation every_start_succeeds init) init
  /\ task_queue (snd (schedule_task (-1) earn_money_simulation every_start_succeeds init))
     = [((-1)%Q, earn_money_simulation)].
Proof.
  repeat split; try reflexivity; intros [[e He] _]; vm_compute in He; discriminate.
Qed.

(** C6, amended. [schedule_task] checks nothing about the interval: for every
    interval, be it zero or negative, the call returns normally and its tuple
    is appended to the queue unchanged. *)
Theorem schedule_task_enqueues_any_interval (i : Q) (f : action)
    (starts : nat -> start_outcome) (s : state) :
  fst (schedule_task i f starts s) = Ok tt
  /\ task_queue (snd (schedule_task i f starts s)) = task_queue s ++ [(i, f)]
  /\ ~ rejected (schedule_task i f starts s) s.
Proof.
  rewrite schedule_task_spec. simpl. repeat split.
  - by destruct (scheduler_started s).
  - by intros [[e He] _].
Qed.

(** C7. A call of [schedule_task] returns normally in every state of the
    program (whatever actions have raised, whichever loops or workers have
    ended) and however the thread starts of this very call end: a start that
    fails is written to the log and nothing reaches the caller.  The call
    touches neither the loops nor the workers already there. *)
Theorem schedule_task_never_raises (i : Q) (f : action)
    (starts : nat -> start_outcome) (s : state) :
  exists s',
    schedule_task i f starts s = (Ok tt, s')
    /\ loops s' = loops s
    /\ (forall w fr, workers s !! w = Some fr -> workers s' !! w = Some fr)
    /\ log s' = log s ++
         (if scheduler_started s then []
          else failed_starts starts (max_worker_threads s) 0).
Proof.
  rewrite schedule_task_spec. eexists. split; [reflexivity|].
  destruct (scheduler_started s); simpl; repeat split; try done.
  - by rewrite app_nil_r.
  - intros w fr Hw. by apply lookup_app_l_Some.
Qed.

(** ** The dispatcher workers *)

(** C8. Whenever a worker has taken a tuple from the queue and the start of
    the thread for it fails with [RuntimeError], the step is taken all the
    same: the error is written to the log, no loop is created and none is
    recorded as launched, the tuple is not put back into the queue, and the
    worker is again at [get], where it cannot try the start again and takes
    the next tuple as soon as there is one. *)
Theorem failed_spawn_logged_task_dropped (w : nat) (msg : string) (s s1 : state) :
  step (WorkerGet w) s = Some s1 ->
  exists t s2,
    deliveries (history s1) = deliveries (history s) ++ [(w, t)]
    /\ step (WorkerStart w (CannotStart msg)) s1 = Some s2
    /\ log s2 = log s1 ++ ["Thread limit reached: " +:+ msg]
    /\ loops s2 = loops s1
    /\ history s2 = history s1
    /\ task_queue s2 = task_queue s1
    /\ workers s2 !! w = Some (WorkerFrame AtGet (Some t))
    /\ (forall o, step (WorkerStart w o) s2 = None)
    /\ (forall t' q, task_queue s2 = t' :: q ->
        exists s3, step (WorkerGet w) s2 = Some s3
                   /\ deliveries (history s3) = deliveries (history s2) ++ [(w, t')]).
Proof.
  intros Hget. apply step_transition in Hget.
  inversion Hget as [| |w0 c t q s0 Hw Hq| | | | | | | | |]; subst.
  assert (Hlt : w < length (workers s)) by (by eapply lookup_lt_Some).
  exists t. eexists. split; [|split].
  - unfold deliveries. simpl. by rewrite omap_app.
  - apply step_transition. constructor. simpl. by apply list_lookup_insert_eq.
  - simpl. rewrite list_insert_insert_eq.
    assert (Hback : <[w:=WorkerFrame AtGet (Some t)]> (workers s) !! w
                    = Some (WorkerFrame AtGet (Some t)))
      by (by apply list_lookup_insert_eq).
    repeat split; try done.
    + intros o. unfold worker_start. simpl.
      by rewrite list_insert_insert_eq, Hback.
    + intros t' q' ->. eexists. split.
      * apply (step_transition (WorkerGet w)). econstructor; simpl; [|done].
        rewrite list_insert_insert_eq. exact Hback.
      * unfold deliveries. simpl. by rewrite omap_app.
Qed.

Lemma failed_spawn_logged_task_dropped_witness :
  exists t s2,
    step (WorkerStart 0 (CannotStart "can't start new thread"))
      (after_run (run_prefix ++ [WorkerGet 0])) = Some s2
    /\ log s2 = ["Thread limit reached: can't start new thread"]
    /\ loops s2 = []
    /\ workers s2 !! 0 = Some (WorkerFrame AtGet (Some t)).
Proof.
  destruct (failed_spawn_logged_task_dropped 0 "can't start new thread"
              (after_run run_prefix) (after_run (run_prefix ++ [WorkerGet 0])))
    as (t & s2 & _ & Hstep & Hlog & Hloops & _ & _ & Hw & _).
  { vm_compute. reflexivity. }
  exists t, s2. repeat split; assumption.
Defined.

(** C9. A worker never runs an action.  First, a step of a worker adds no
    call to the history, changes the log only when a thread start fails and
    leaves every loop there is exactly as it was; after [WorkerStart] the
    worker is at [get] again.  Second, in any state, whatever the loops are
    doing (some may be inside a call of their action, for however long), a
    worker at [get] takes the tuple at the head of the queue, starts its
    loop, and that loop makes its first call, while every other loop stays
    where it was: no step of another loop is needed. *)
Theorem worker_never_runs_action :
  (forall a s s',
     is_worker_label a = true ->
     step a s = Some s' ->
     (forall l, invocations l (history s') = invocations l (history s))
     /\ (forall l th, loops s !! l = Some th -> loops s' !! l = Some th)
     /\ (forall w o, a = WorkerStart w o ->
         exists c, workers s' !! w = Some (WorkerFrame AtGet c)))
  /\ (forall s w c t q,
        workers s !! w = Some (WorkerFrame AtGet c) ->
        task_queue s = t :: q ->
        exists s',
          exec [WorkerGet w; WorkerStart w Started; TaskCall (length (loops s))] s
            = Some s'
          /\ history s' = history s ++
               [EvGet w t; EvLaunch w (length (loops s)) t;
                EvInvoke (length (loops s)) (snd t) 0]
          /\ (forall l th, loops s !! l = Some th -> loops s' !! l = Some th)).
Proof.
  split.
  - intros a s s' Hlab Hstep. apply step_transition in Hstep.
    destruct Hstep as [| |w c t q s Hw Hq|w t s Hw|w t m s Hw| | | | | | |];
      try discriminate Hlab; unfold invocations; simpl;
      (split; [intros l; rewrite ?omap_app; simpl; by rewrite ?app_nil_r | split]);
      try done.
    + intros l th Hl. by apply lookup_app_l_Some.
    + intros ? ? [= <- <-]. eexists. apply list_lookup_insert_eq.
      by eapply lookup_lt_Some.
    + intros ? ? [= <- <-]. eexists. apply list_lookup_insert_eq.
      by eapply lookup_lt_Some.
  - intros s w c t q Hw Hq.
    assert (Hlt : w < length (workers s)) by (by eapply lookup_lt_Some).
    eexists. split.
    + unfold exec.
      rewrite (proj2 (step_transition (WorkerGet w) _ _) (T_get w c t q s Hw Hq)).
      simpl. unfold worker_start. simpl.
      rewrite list_lookup_insert_eq by done. simpl.
      unfold task_call, cells_of. simpl.
      rewrite list_insert_insert_eq.
      rewrite lookup_app_r by done. rewrite Nat.sub_diag. simpl.
      rewrite list_lookup_insert_eq by done. simpl. reflexivity.
    + simpl. split.
      * by rewrite <- !app_assoc.
      * intros l th Hl.
        rewrite list_lookup_insert_ne
          by (apply lookup_lt_Some in Hl; lia).
        by apply lookup_app_l_Some.
Qed.

Lemma worker_never_runs_action_witness :
  exists s',
    loops (after_run slow_action_running) !! 0 = Some (RunTask 0 (InAction generate_thought) 0)
    /\ exec [WorkerGet 1; WorkerStart 1 Started; TaskCall 1] (after_run slow_action_running)
       = Some s'
    /\ loops s' !! 0 = Some (RunTask 0 (InAction generate_thought) 0)
    /\ invocations 1 (history s') = [(earn_money_simulation, 0%Q)].
Proof.
  destruct (proj2 worker_never_runs_action (after_run slow_action_running) 1 None
              (300%Q, earn_money_simulation) [])
    as (s' & Hrun & Hhist & Hkeep).
  { vm_compute. reflexivity. }
  { vm_compute. reflexivity. }
  exists s'. split; [vm_compute; reflexivity|]. split; [exact Hrun|]. split.
  - apply Hkeep. vm_compute. reflexivity.
  - rewrite Hhist. vm_compute. reflexivity.
Defined.

(** ** A pool in which no worker could be started *)

Lemma pool_without_workers_step a s s' :
  transition a s s' ->
  pool_without_workers s ->
  pool_without_workers s'
  /\ task_queue s' = task_queue s ++ scheduled [a]
  /\ log s' = log s
  /\ deliveries (history s') = deliveries (history s)
  /\ scheduler_starts (history s') = scheduler_starts (history s).
Proof.
  unfold pool_without_workers, deliveries, scheduler_starts.
  intros T (Hflag & Hws & Hls).
  destruct T;
    try match goal with
      | H : workers _ !! _ = Some _ |- _ => by rewrite Hws in H
      | H : loops _ !! _ = Some _ |- _ => by rewrite Hls in H
      end.
  - congruence.
  - simpl. rewrite !omap_app. simpl. rewrite ?app_nil_r. done.
Qed.

Lemma pool_without_workers_run rest s0 s :
  exec rest s0 = Some s ->
  pool_without_workers s0 ->
  pool_without_workers s
  /\ task_queue s = task_queue s0 ++ scheduled rest
  /\ log s = log s0
  /\ deliveries (history s) = deliveries (history s0)
  /\ scheduler_starts (history s) = scheduler_starts (history s0).
Proof.
  revert s0. induction rest as [|a rest IH]; intros s0 Hrun Hpool; simpl in Hrun.
  - injection Hrun as <-. by rewrite app_nil_r.
  - destruct (step a s0) as [s1|] eqn:Ha; simpl in Hrun; [|done].
    apply step_transition in Ha.
    destruct (pool_without_workers_step a s0 s1 Ha Hpool) as (Hp1 & Hq1 & Hl1 & Hd1 & Hs1).
    destruct (IH s1 Hrun Hp1) as (Hp & Hq & Hl & Hd & Hs).
    repeat split; try apply Hp; try congruence.
    rewrite Hq, Hq1, <- app_assoc. f_equal.
    unfold scheduled. simpl. by destruct a.
Qed.

(** C10. [schedule_task] sets [scheduler_started] before it calls
    [_start_task_scheduler] and nothing ever clears it.  So when none of the
    thread starts of the first call succeeds, then after any further run of
    the program: the flag is set, [_start_task_scheduler] has been entered
    that one time only, there is no worker and no loop, every tuple
    scheduled so far is in the queue in order and none was ever taken, no
    worker can take one, the log holds the failed starts of the first call
    and nothing else, and one more call of [schedule_task], however lucky
    with threads, returns normally and still leaves no worker. *)
Theorem failed_pool_start_is_never_retried (i : Q) (f : action)
    (starts : nat -> start_outcome) (rest : list label) (s : state) :
  (forall k, k < max_worker_threads init -> starts k <> Started) ->
  exec (Schedule i f starts :: rest) init = Some s ->
  scheduler_started s = true
  /\ scheduler_starts (history s) = 1
  /\ workers s = [] /\ loops s = []
  /\ task_queue s = (i, f) :: scheduled rest
  /\ deliveries (history s) = []
  /\ (forall w, step (WorkerGet w) s = None)
  /\ log s = failed_starts starts (max_worker_threads init) 0
  /\ length (log s) = max_worker_threads init
  /\ (forall i' f' starts',
        exists s', schedule_task i' f' starts' s = (Ok tt, s')
                   /\ workers s' = [] /\ log s' = log s).
Proof.
  intros Hnone Hrun.
  rewrite exec_cons in Hrun. unfold step in Hrun. rewrite schedule_task_spec in Hrun.
  assert (Hzero : started_count starts (max_worker_threads init) 0 = 0).
  { apply started_count_none. intros j Hj. apply Hnone. simpl in Hj. simpl. lia. }
  rewrite Hzero in Hrun.
  set (msgs := failed_starts starts (max_worker_threads init) 0) in *.
  simpl in Hrun.
  apply pool_without_workers_run in Hrun as ((Hflag & Hws & Hls) & Hq & Hlog & Hdel & Hst);
    [|done].
  assert (Hlen : forall n k, started_count starts n k = 0 ->
                   length (failed_starts starts n k) = n).
  { induction n as [|n IHn]; intros k Hk; simpl in *; [done|].
    destruct (starts k); [done|]. simpl. f_equal. by apply IHn. }
  repeat split; try done.
  - intros w. simpl. unfold worker_get. by rewrite Hws.
  - rewrite Hlog. by apply Hlen.
  - intros i' f' starts'. rewrite schedule_task_spec. eexists. split; [reflexivity|].
    rewrite Hflag. simpl. done.
Qed.

Lemma failed_pool_start_is_never_retried_witness :
  task_queue (after_run [Schedule 3600 generate_thought no_thread_starts;
                         Schedule 300 earn_money_simulation every_start_succeeds])
  = [(3600%Q, generate_thought); (300%Q, earn_money_simulation)]
  /\ workers (after_run [Schedule 3600 generate_thought no_thread_starts;
                         Schedule 300 earn_money_simulation every_start_succeeds])
     = [].
Proof.
  destruct (failed_pool_start_is_never_retried 3600 generate_thought no_thread_starts
              [Schedule 300 earn_money_simulation every_start_succeeds]
              (after_run [Schedule 3600 generate_thought no_thread_starts;
                          Schedule 300 earn_money_simulation every_start_succeeds]))
    as (_ & _ & Hws & _ & Hq & _).
  { intros k _. discriminate. }
  { vm_compute. reflexivity. }
  split; [exact Hq | exact Hws].
Defined.

(** ** The loop of [run_task] *)

(** C1 fails on the code.  In the run [one_worker_takes_both], loop 0 is
    made for the tuple [(3600, generate_thought)]; its first turn calls
    [generate_thought] and sleeps 3600.  Worker 0 then takes
    [(300, earn_money_simulation)] from the queue, which rebinds the cells
    that the closure of loop 0 reads, and the second turn of loop 0 calls
    [earn_money_simulation] and sleeps 300. *)
Theorem loop_follows_later_dequeue :
  is_Some (exec one_worker_takes_both init)
  /\ launched_for 0 (history (after_run one_worker_takes_both))
     = [(3600%Q, generate_thought)]
  /\ deliveries (history (after_run one_worker_takes_both))
     = [(0, (3600%Q, generate_thought)); (0, (300%Q, earn_money_simulation))]
  /\ invocations 0 (history (after_run one_worker_takes_both))
     = [(generate_thought, 0%Q); (earn_money_simulation, 3600%Q)]
  /\ sleeps 0 (history (after_run one_worker_takes_both)) = [3600%Q; 300%Q].
Proof.
  split; [vm_compute; eexists; reflexivity|].
  repeat split; vm_compute; reflexivity.
Qed.

Lemma one_cycle l w c fr i f o d s :
  loops s !! l = Some (RunTask w AtCall c) ->
  workers s !! w = Some fr ->
  w_cells fr = Some (i, f) ->
  time_sleep i = SleepReturns ->
  Qle_bool 0 d = true ->
  handled o = true ->
  exec (cycle l o d) s
  = Some {| task_queue := task_queue s;
            max_worker_threads := max_worker_threads s;
            scheduler_started := scheduler_started s;
            workers := workers s;
            loops := <[l := RunTask w AtCall (c + d + i)]> (loops s);
            log := log s ++ error_line o;
            history := history s ++ [EvInvoke l f c; EvSlept l i] |}.
Proof.
  intros Hl Hw Hc Hi Hd Ho.
  assert (Hlt : l < length (loops s)) by (by eapply lookup_lt_Some).
  unfold cycle, exec, step.
  unfold task_call, cells_of. rewrite Hl. simpl. rewrite Hw. simpl. rewrite Hc. simpl.
  unfold task_done. simpl. rewrite list_lookup_insert_eq by done. simpl. rewrite Hd.
  destruct o as [|e]; simpl in Ho; rewrite ?Ho; simpl;
    unfold task_sleep, cells_of; simpl;
    rewrite list_insert_insert_eq, list_lookup_insert_eq by done; simpl;
    rewrite Hw; simpl; rewrite Hc; simpl; rewrite Hi; simpl;
    unfold observed, set_loop, logged, with_loops; simpl;
    rewrite !list_insert_insert_eq, <- ?app_assoc, ?app_nil_r; reflexivity.
Qed.

Lemma cycles_run l w fr i f ends n :
  time_sleep i = SleepReturns ->
  (forall k, handled (fst (ends k)) = true /\ Qle_bool 0 (snd (ends k)) = true) ->
  forall k c s,
    loops s !! l = Some (RunTask w AtCall c) ->
    workers s !! w = Some fr ->
    w_cells fr = Some (i, f) ->
    exec (cycles l ends k n) s
    = Some {| task_queue := task_queue s;
              max_worker_threads := max_worker_threads s;
              scheduler_started := scheduler_started s;
              workers := workers s;
              loops := <[l := RunTask w AtCall (clock_after c i ends k n)]> (loops s);
              log := log s ++ error_lines ends k n;
              history := history s ++ cycle_events l f c i ends k n |}.
Proof.
  intros Hi Hends. induction n as [|n IH]; intros k c s Hl Hw Hc.
  - simpl. rewrite !app_nil_r, list_insert_id by done. by destruct s.
  - assert (Hlt : l < length (loops s)) by (by eapply lookup_lt_Some).
    destruct (Hends k) as [Ho Hd].
    cbn [cycles]. rewrite exec_app.
    rewrite (one_cycle l w c fr i f _ _ s Hl Hw Hc Hi Hd Ho). cbn [mbind option_bind].
    rewrite (IH (S k) (c + snd (ends k) + i)%Q); simpl;
      [|by apply list_lookup_insert_eq|done|done].
    by rewrite list_insert_insert_eq, <- !app_assoc.
Qed.

Lemma invocations_cycle_events l f c i ends k n :
  invocations l (cycle_events l f c i ends k n)
  = map (fun t => (f, t)) (call_times c i ends k n).
Proof.
  revert c k. induction n as [|n IH]; intros c k; simpl; [done|].
  rewrite decide_True by done. f_equal. apply IH.
Qed.

Lemma sleeps_cycle_events l f c i ends k n :
  sleeps l (cycle_events l f c i ends k n) = replicate n i.
Proof.
  revert c k. induction n as [|n IH]; intros c k; simpl; [done|].
  rewrite decide_True by done. f_equal. apply IH.
Qed.

Lemma length_call_times c i ends k n : length (call_times c i ends k n) = n.
Proof.
  revert c k. induction n as [|n IH]; intros c k; simpl; [done|]. by rewrite IH.
Qed.

Lemma error_lines_always_raising (errs : nat -> exn) (durs : nat -> Q) k n :
  error_lines (fun j => (Raised (errs j), durs j)) k n
  = map (fun j => "Scheduled task error: " +:+ exc_msg (errs j)) (seq k n).
Proof.
  revert k. induction n as [|n IH]; intros k; simpl; [done|]. by rewrite IH.
Qed.

(** Calls that begin at a whole time [k], last no time and are followed by a
    sleep of 1: those among the next [n] that begin by time 3.5. *)
Lemma calls_until_three_and_a_half (f : action) (outs : nat -> outcome) n :
  forall (k j : nat) (c : Q),
    (c == inject_Z (Z.of_nat k))%Q ->
    length (filter (fun x : action * Q => Qle_bool (snd x) (7 # 2) = true)
              (map (fun t => (f, t))
                 (call_times c 1 (fun m => (outs m, 0%Q)) j n)))
    = n `min` (4 - k).
Proof.
  induction n as [|n IH]; intros k j c Hc; simpl; [done|].
  assert (Hnext : (c + 0 + 1 == inject_Z (Z.of_nat (S k)))%Q).
  { rewrite Hc, Nat2Z.inj_succ. unfold Z.succ. rewrite inject_Z_plus. ring. }
  specialize (IH (S k) (S j) _ Hnext).
  rewrite filter_cons. simpl.
  destruct (decide (Qle_bool c (7 # 2) = true)) as [Hle|Hgt]; simpl; rewrite IH.
  - apply Qle_bool_iff in Hle. rewrite Hc in Hle.
    unfold Qle in Hle. simpl in Hle.
    destruct (4 - k) as [|m] eqn:Hm; [lia|]. do 2 f_equal. lia.
  - assert (Hk : ~ (k <= 3)).
    { intros Hk. apply Hgt, Qle_bool_iff. rewrite Hc. unfold Qle. simpl. lia. }
    destruct (4 - k) as [|m] eqn:Hm; lia.
Qed.

(** C3 as the specification has it fails.  In the scenario of the
    specification (interval 1, an action that takes no time) the loop, which
    calls before it sleeps, has made its calls at times 0, 1, 2 and 3 when
    3.5 units of time have passed: four calls, not three. *)
Lemma counter_is_four_after_three_and_a_half :
  is_Some (exec fixed_delay_scenario init)
  /\ invocations 0 (history (after_run fixed_delay_scenario))
     = [(counting_action, 0%Q); (counting_action, 1%Q);
        (counting_action, 2%Q); (counting_action, 3%Q)]
  /\ loops (after_run fixed_delay_scenario) !! 0 = Some (RunTask 0 AtCall 4)
  /\ invoked_until (7 # 2) 0 (history (after_run fixed_delay_scenario)) = 4
  /\ invoked_until (7 # 2) 0 (history (after_run fixed_delay_scenario)) <> 3.
Proof.
  split; [vm_compute; eexists; reflexivity|].
  repeat split; try (vm_compute; reflexivity).
  vm_compute. discriminate.
Qed.


(** * Further properties of the scheduler *)

Lemma exec_Forall_invariant (ok : label -> Prop) (P : state -> Prop) :
  (forall a s s', ok a -> transition a s s' -> P s -> P s') ->
  forall ls s s', Forall ok ls -> exec ls s = Some s' -> P s -> P s'.
Proof.
  intros Hstep ls. induction ls as [|a ls IH]; intros s s' Hok Hrun HP; simpl in Hrun.
  - by injection Hrun as <-.
  - destruct (step a s) as [s1|] eqn:Ha; simpl in Hrun; [|done].
    apply Forall_cons in Hok as [Ha_ok Hok].
    apply (IH s1); [done|done|].
    apply (Hstep a s); [done | by apply step_transition | done].
Qed.

(** ** No thread reads an unbound variable or gets stuck *)

Lemma lookup_insert_cases {A} (xs : list A) i j x y :
  <[i:=x]> xs !! j = Some y -> (i = j /\ x = y) \/ (i <> j /\ xs !! j = Some y).
Proof.
  intros H. apply list_lookup_insert_Some in H as [(-> & -> & _)|[Hne Hj]]; auto.
Qed.

Lemma bound_frame_insert (ws : list worker_frame) w fr0 t0 k :
  w_cells fr0 = Some t0 ->
  (exists fr t, ws !! k = Some fr /\ w_cells fr = Some t) ->
  exists fr t, <[w:=fr0]> ws !! k = Some fr /\ w_cells fr = Some t.
Proof.
  intros Hc (fr & t & Hk & Hfr). destruct (decide (w = k)) as [->|Hne].
  - exists fr0, t0. split; [|done]. apply list_lookup_insert_eq. by eapply lookup_lt_Some.
  - exists fr, t. split; [|done]. by rewrite list_lookup_insert_ne.
Qed.

Lemma threads_ok_step a s s' : transition a s s' -> threads_ok s -> threads_ok s'.
Proof.
  intros T [Hws Hls].
  destruct T as [i f starts s Hflag|i f starts s Hflag|w c t q s Hw Hq|w t s Hw
                |w t m s Hw|l w c fr t s Hl Hw Hc|l w g c d s Hl Hd
                |l w g c d e s Hl Hd He|l w g c d e s Hl Hd He
                |l w c fr t s Hl Hw Hc Hi|l w c fr t s Hl Hw Hc Hi
                |l w c fr t s Hl Hw Hc Hi];
    split; simpl; try done.
  - intros w fr [Hw|[_ Hw]]%lookup_app_Some; [by eapply Hws|].
    apply lookup_replicate in Hw as [-> _]. by split.
  - intros l th Hl. destruct (Hls l th Hl) as (fr & t & Hfr & Hc).
    exists fr, t. split; [by apply lookup_app_l_Some | done].
  - intros w0 fr [[_ <-]|[_ Hw0]]%lookup_insert_cases; [by split; eauto | by eapply Hws].
  - intros l th Hl. by eapply bound_frame_insert, Hls.
  - intros w0 fr [[_ <-]|[_ Hw0]]%lookup_insert_cases; [by split | by eapply Hws].
  - intros l th [Hl|[_ Hl]]%lookup_app_Some.
    + by eapply bound_frame_insert, Hls.
    + apply list_lookup_singleton_Some in Hl as [_ <-]. simpl.
      exists (WorkerFrame AtGet (Some t)), t. split; [|done].
      apply list_lookup_insert_eq. by eapply lookup_lt_Some.
  - intros w0 fr [[_ <-]|[_ Hw0]]%lookup_insert_cases; [by split | by eapply Hws].
  - intros l th Hl. by eapply bound_frame_insert, Hls.
  - intros l0 th [[_ <-]|[_ Hl0]]%lookup_insert_cases; [simpl; eauto | by eapply Hls].
  - intros l0 th [[_ <-]|[_ Hl0]]%lookup_insert_cases; [|by eapply Hls].
    apply (Hls l _ Hl).
  - intros l0 th [[_ <-]|[_ Hl0]]%lookup_insert_cases; [|by eapply Hls].
    apply (Hls l _ Hl).
  - intros l0 th [[_ <-]|[_ Hl0]]%lookup_insert_cases; [|by eapply Hls].
    apply (Hls l _ Hl).
  - intros l0 th [[_ <-]|[_ Hl0]]%lookup_insert_cases; [simpl; eauto | by eapply Hls].
  - intros l0 th [[_ <-]|[_ Hl0]]%lookup_insert_cases; [simpl; eauto | by eapply Hls].
  - intros l0 th [[_ <-]|[_ Hl0]]%lookup_insert_cases; [simpl; eauto | by eapply Hls].
Qed.

Lemma threads_ok_init : threads_ok init.
Proof. split; intros k x Hk; simpl in Hk; by rewrite lookup_nil in Hk. Qed.

(** X1. In every state that a run from [init] reaches, no thread has stopped
    on an unbound variable and none is stuck: a worker is at [get] (and
    takes a tuple whenever the queue has one) or is about to start a thread
    (and does, whether the start succeeds or fails); a loop that has not
    ended can make its call, finish it, or sleep, whichever is next. *)
Theorem no_thread_is_stuck (ls : list label) (s : state) :
  exec ls init = Some s ->
  (forall w fr, workers s !! w = Some fr ->
     (w_pc fr = AtGet
      /\ forall t q, task_queue s = t :: q -> is_Some (step (WorkerGet w) s))
     \/ (w_pc fr = AtStart /\ forall o, is_Some (step (WorkerStart w o) s)))
  /\ (forall l th, loops s !! l = Some th ->
        match r_pc th with
        | AtCall => is_Some (step (TaskCall l) s)
        | InAction _ =>
            forall o d, Qle_bool 0 d = true -> is_Some (step (TaskDone l o d) s)
        | AtSleep => is_Some (step (TaskSleep l) s)
        | LoopDead => True
        end).
Proof.
  intros Hrun.
  destruct (exec_invariant threads_ok threads_ok_step ls init s Hrun threads_ok_init)
    as [Hws Hls].
  split.
  - intros w [pc c] Hw. destruct (Hws w _ Hw) as [Halive Hbound].
    cbn [w_pc w_cells] in *.
    destruct pc; [left|right|done]; (split; [done|]).
    + intros t q Hq. eexists. apply step_transition. by econstructor.
    + destruct (Hbound eq_refl) as [t ->].
      intros [|m]; eexists; apply step_transition; by constructor.
  - intros l [w pc c] Hl. destruct (Hls l _ Hl) as (fr & t & Hw & Hc).
    cbn [r_pc r_frame] in *.
    destruct pc as [|g| |]; [| |idtac|done].
    + eexists. apply step_transition. by econstructor.
    + intros [|e] d Hd; [eexists; apply step_transition; by econstructor|].
      destruct (is_Exception (exc_cls e)) eqn:He;
        eexists; apply step_transition; [by eapply T_caught | by eapply T_uncaught].
    + destruct (time_sleep (fst t)) eqn:Hi;
        eexists; apply step_transition;
        [by eapply T_sleep | |]; eapply T_sleep_raises; eauto; congruence.
Qed.

Lemma no_thread_is_stuck_witness :
  is_Some (step (WorkerStart 1 Started) (after_run busy_run))
  /\ is_Some (step (TaskDone 0 (Raised (Exn SystemExit "bye")) 2) (after_run busy_run)).
Proof.
  destruct (no_thread_is_stuck busy_run (after_run busy_run)) as [Hws Hls];
    [vm_compute; reflexivity|].
  split.
  - destruct (Hws 1 (WorkerFrame AtStart (Some (5%Q, counting_action))))
      as [[Hpc _]|[_ Hgo]]; [vm_compute; reflexivity|discriminate Hpc|apply Hgo].
  - apply (Hls 0 (RunTask 0 (InAction generate_thought) 0)); vm_compute; reflexivity.
Defined.

(** ** Which tuple a loop follows *)

Lemma cells_are_last_taken_step a s s' :
  transition a s s' -> cells_are_last_taken s -> cells_are_last_taken s'.
Proof.
  unfold cells_are_last_taken, taken_by. intros T I.
  destruct T as [i f starts s Hflag|i f starts s Hflag|w c t q s Hw Hq|w t s Hw
                |w t m s Hw|l w c fr t s Hl Hw Hc|l w g c d s Hl Hd
                |l w g c d e s Hl Hd He|l w g c d e s Hl Hd He
                |l w c fr t s Hl Hw Hc Hi|l w c fr t s Hl Hw Hc Hi
                |l w c fr t s Hl Hw Hc Hi];
    intros w0; simpl; rewrite ?omap_app; simpl;
    rewrite ?omap_EvWorker by done; rewrite ?app_nil_r; try apply I.
  - rewrite <- I. destruct (workers s !! w0) as [fr|] eqn:Hw0.
    + by rewrite (lookup_app_l_Some _ _ _ _ Hw0).
    + apply lookup_ge_None in Hw0. rewrite lookup_app_r by done.
      by destruct (replicate _ _ !! _) as [fr|] eqn:Hr;
        [apply lookup_replicate in Hr as [-> _]|].
  - destruct (decide (w = w0)) as [<-|Hne].
    + rewrite list_lookup_insert_eq by (by eapply lookup_lt_Some).
      simpl. by rewrite last_snoc.
    + rewrite list_lookup_insert_ne, app_nil_r by done. apply I.
  - rewrite <- I. destruct (decide (w = w0)) as [<-|Hne].
    + rewrite list_lookup_insert_eq by (by eapply lookup_lt_Some). by rewrite Hw.
    + by rewrite list_lookup_insert_ne.
  - rewrite <- I. destruct (decide (w = w0)) as [<-|Hne].
    + rewrite list_lookup_insert_eq by (by eapply lookup_lt_Some). by rewrite Hw.
    + by rewrite list_lookup_insert_ne.
Qed.

(** X2. Which action a loop calls and how long it sleeps.  In every state
    that a run from [init] reaches, a loop about to call does call, and what
    it calls is the action of the tuple that the worker which started it
    took from the queue most recently; a loop about to sleep passes the
    interval of that same tuple to [time.sleep]: when [time.sleep] accepts
    it (and the operating system grants the sleep) the loop sleeps exactly
    that long and is about to call again, and when [time.sleep] rejects it
    the loop ends there, with nothing logged.  (The tuple the loop was made
    for plays no part once its worker has taken another.) *)
Theorem loop_follows_last_taken (ls : list label) (s : state) (l : nat)
    (th : run_task_thread) :
  exec ls init = Some s ->
  loops s !! l = Some th ->
  exists t,
    last (taken_by (r_frame th) (history s)) = Some t
    /\ (r_pc th = AtCall ->
        exists s', step (TaskCall l) s = Some s'
                   /\ history s' = history s ++ [EvInvoke l (snd t) (r_clock th)])
    /\ (r_pc th = AtSleep ->
        exists s',
          step (TaskSleep l) s = Some s'
          /\ log s' = log s
          /\ match time_sleep (fst t) with
             | SleepReturns =>
                 history s' = history s ++ [EvSlept l (fst t)]
                 /\ loops s' !! l
                    = Some (RunTask (r_frame th) AtCall (r_clock th + fst t))
             | SleepOverflowError | SleepValueError =>
                 history s' = history s
                 /\ loops s' !! l = Some (RunTask (r_frame th) LoopDead (r_clock th))
             end).
Proof.
  intros Hrun Hl.
  destruct (exec_invariant threads_ok threads_ok_step ls init s Hrun threads_ok_init)
    as [_ Hls].
  assert (Hlast : cells_are_last_taken s).
  { apply (exec_invariant _ cells_are_last_taken_step ls init s Hrun). by intros w. }
  destruct (Hls l th Hl) as (fr & t & Hw & Hc).
  specialize (Hlast (r_frame th)). rewrite Hw in Hlast. simpl in Hlast.
  assert (Hlt : l < length (loops s)) by (by eapply lookup_lt_Some).
  exists t. split; [congruence|]. destruct th as [w pc c]. simpl in *. split.
  - intros ->. eexists. split.
    + apply (step_transition (TaskCall l)). by econstructor.
    + reflexivity.
  - intros ->. unfold task_sleep, cells_of. rewrite Hl. simpl. rewrite Hw. simpl.
    rewrite Hc. simpl.
    destruct (time_sleep (fst t)); eexists; (split; [reflexivity|]); simpl;
      (split; [done|]); (split; [done|]); by apply list_lookup_insert_eq.
Qed.

Lemma loop_follows_last_taken_witness :
  exists s',
    launched_for 0 (history (after_run one_worker_takes_both))
      = [(3600%Q, generate_thought)]
    /\ step (TaskCall 0) (after_run one_worker_takes_both) = Some s'
    /\ invocations 0 (history s')
       = [(generate_thought, 0%Q); (earn_money_simulation, 3600%Q);
          (earn_money_simulation, 3900%Q)].
Proof.
  destruct (loop_follows_last_taken (one_worker_takes_both)
              (after_run one_worker_takes_both) 0 (RunTask 0 AtCall 3900))
    as (t & Ht & Hcall & _); try (vm_compute; reflexivity).
  destruct (Hcall eq_refl) as (s' & Hstep & Hhist).
  injection Ht as <-.
  exists s'. split; [|split].
  - vm_compute. reflexivity.
  - exact Hstep.
  - rewrite Hhist. vm_compute. reflexivity.
Defined.

(** ** Nothing taken from the queue goes unaccounted for *)

Lemma starting_insert (ws : list worker_frame) w fr fr' :
  ws !! w = Some fr ->
  starting (<[w:=fr']> ws) + (if at_start fr then 1 else 0)
  = starting ws + (if at_start fr' then 1 else 0).
Proof.
  intros Hw. unfold starting.
  rewrite insert_take_drop by (by eapply lookup_lt_Some).
  rewrite <- (take_drop_middle ws w fr Hw) at 3.
  rewrite !filter_app, !filter_cons, !length_app.
  destruct (at_start fr), (at_start fr'); simpl; lia.
Qed.

Lemma starting_fresh (ws : list worker_frame) n :
  starting (ws ++ replicate n fresh_worker) = starting ws.
Proof.
  unfold starting. rewrite filter_app, length_app.
  induction n as [|n IH]; simpl; [lia|]. by rewrite filter_cons.
Qed.

Lemma prefix_append (s m : string) : String.prefix s (s +:+ m) = true.
Proof.
  induction s as [|a s IH]; simpl; [by destruct m|].
  by destruct (Ascii.ascii_dec a a).
Qed.

Lemma spawn_failures_failed_starts lg starts n k :
  spawn_failures (lg ++ failed_starts starts n k) = spawn_failures lg.
Proof.
  unfold spawn_failures. rewrite filter_app, length_app.
  cut (filter (fun m => String.prefix "Thread limit reached: " m = true)
         (failed_starts starts n k) = []); [intros ->; simpl; lia|].
  revert k. induction n as [|n IH]; intros k; simpl; [done|].
  destruct (starts k); [apply IH|]. rewrite filter_cons. simpl. apply IH.
Qed.

Lemma taken_accounted_step a s s' :
  transition a s s' -> taken_accounted s -> taken_accounted s'.
Proof.
  unfold taken_accounted, deliveries, spawn_failures. intros T I.
  destruct T as [i f starts s Hflag|i f starts s Hflag|w c t q s Hw Hq|w t s Hw
                |w t m s Hw|l w c fr t s Hl Hw Hc|l w g c d s Hl Hd
                |l w g c d e s Hl Hd He|l w g c d e s Hl Hd He
                |l w c fr t s Hl Hw Hc Hi|l w c fr t s Hl Hw Hc Hi
                |l w c fr t s Hl Hw Hc Hi];
    simpl; rewrite ?omap_app, ?length_app, ?length_insert; simpl;
    rewrite ?omap_EvWorker by done; simpl; rewrite ?Nat.add_0_r; try done.
  - rewrite starting_fresh.
    fold (spawn_failures (log s ++ failed_starts starts (max_worker_threads s) 0)).
    rewrite spawn_failures_failed_starts. exact I.
  - pose proof (starting_insert _ w _ (WorkerFrame AtStart (Some t)) Hw) as Hn.
    simpl in Hn. lia.
  - pose proof (starting_insert _ w _ (WorkerFrame AtGet (Some t)) Hw) as Hn.
    simpl in Hn. lia.
  - pose proof (starting_insert _ w _ (WorkerFrame AtGet (Some t)) Hw) as Hn.
    simpl in Hn.
    rewrite filter_app, length_app, filter_cons_True by apply prefix_append.
    simpl. lia.
  - rewrite filter_app, length_app, filter_cons. simpl. lia.
Qed.

(** X3. Along every run, each tuple taken from the queue is accounted for:
    the number of tuples taken equals the number of loops started (running
    or ended), plus the number of "Thread limit reached" lines in the log,
    plus the number of workers that hold a tuple and are about to start its
    thread.  No [get] is lost silently, and no loop exists without one. *)
Theorem every_taken_tuple_accounted (ls : list label) (s : state) :
  exec ls init = Some s ->
  length (deliveries (history s))
  = length (loops s) + spawn_failures (log s) + starting (workers s).
Proof.
  intros Hrun.
  apply (exec_invariant taken_accounted taken_accounted_step ls init s Hrun).
  reflexivity.
Qed.

Lemma every_taken_tuple_accounted_witness :
  length (deliveries (history (after_run busy_run))) = 3
  /\ length (loops (after_run busy_run)) = 1
  /\ spawn_failures (log (after_run busy_run)) = 1
  /\ starting (workers (after_run busy_run)) = 1.
Proof.
  pose proof (every_taken_tuple_accounted busy_run (after_run busy_run)) as Hacc.
  assert (Hrun : exec busy_run init = Some (after_run busy_run))
    by (vm_compute; reflexivity).
  specialize (Hacc Hrun).
  assert (Hloops : length (loops (after_run busy_run)) = 1) by (vm_compute; reflexivity).
  assert (Hfail : spawn_failures (log (after_run busy_run)) = 1)
    by (vm_compute; reflexivity).
  assert (Hstart : starting (workers (after_run busy_run)) = 1)
    by (vm_compute; reflexivity).
  rewrite Hloops, Hfail, Hstart in Hacc. repeat split; assumption.
Defined.

Lemma started_plus_failed starts n k :
  started_count starts n k + worker_start_failures (failed_starts starts n k) = n.
Proof.
  unfold worker_start_failures. revert k.
  induction n as [|n IH]; intros k; simpl; [done|].
  destruct (starts k) as [|m]; simpl; [by rewrite IH|].
  rewrite filter_cons_True by apply prefix_append. simpl.
  specialize (IH (S k)). lia.
Qed.

Lemma starts_accounted_step a s s' :
  transition a s s' ->
  starts_accounted s /\ max_worker_threads s = 5 ->
  starts_accounted s' /\ max_worker_threads s' = 5.
Proof.
  unfold starts_accounted, worker_start_failures. intros T [I Hmax].
  destruct T as [i f starts s Hflag|i f starts s Hflag|w c t q s Hw Hq|w t s Hw
                |w t m s Hw|l w c fr t s Hl Hw Hc|l w g c d s Hl Hd
                |l w g c d e s Hl Hd He|l w g c d e s Hl Hd He
                |l w c fr t s Hl Hw Hc Hi|l w c fr t s Hl Hw Hc Hi
                |l w c fr t s Hl Hw Hc Hi];
    simpl; (split; [|done]);
    try (destruct (scheduler_started s);
         [|by destruct I as [Hnil _]; rewrite Hnil, lookup_nil in Hw]);
    rewrite ?length_insert; try done.
  - rewrite Hflag in I. destruct I as [-> Hzero]. simpl.
    rewrite length_replicate, filter_app, length_app, Hzero. simpl.
    apply started_plus_failed.
  - rewrite filter_app, length_app, filter_cons. simpl. lia.
  - destruct (scheduler_started s);
      rewrite ?filter_app, ?length_app, ?filter_cons; simpl; [lia|].
    destruct I as [Hnil Hzero]. split; [done|lia].
Qed.

(** X4. Each of the [max_worker_threads] = 5 thread starts of
    [_start_task_scheduler] leaves its trace: before the first
    [schedule_task] there is no worker; from then on, along every run, the
    number of workers plus the number of "Worker thread failed to start"
    lines in the log is exactly 5. *)
Theorem every_worker_start_accounted (ls : list label) (s : state) :
  exec ls init = Some s ->
  if scheduler_started s
  then length (workers s) + worker_start_failures (log s) = 5
  else workers s = [] /\ worker_start_failures (log s) = 0.
Proof.
  intros Hrun.
  destruct (exec_invariant _ starts_accounted_step ls init s Hrun) as [Hacc Hmax].
  { by split. }
  unfold starts_accounted in Hacc. by rewrite Hmax in Hacc.
Qed.

Lemma every_worker_start_accounted_witness :
  length (workers (after_run odd_starts_fail))
  + worker_start_failures (log (after_run odd_starts_fail)) = 5
  /\ length (workers (after_run odd_starts_fail)) = 3.
Proof.
  assert (Hrun : exec odd_starts_fail init = Some (after_run odd_starts_fail))
    by (vm_compute; reflexivity).
  pose proof (every_worker_start_accounted _ _ Hrun) as Hacc.
  change (scheduler_started (after_run odd_starts_fail)) with true in Hacc.
  split; [exact Hacc | vm_compute; reflexivity].
Defined.

(** ** A loop moves by its own steps only, and an ended loop never again *)

Lemma loop_untouched_step a s s' l th :
  transition a s s' ->
  loops s !! l = Some th ->
  loop_of_label a <> Some l \/ r_pc th = LoopDead ->
  loops s' !! l = Some th
  /\ invocations l (history s') = invocations l (history s)
  /\ sleeps l (history s') = sleeps l (history s).
Proof.
  unfold invocations, sleeps. intros T Hth Hwhy.
  assert (Hother : forall l0 pc w c,
            loops s !! l0 = Some (RunTask w pc c) -> pc <> LoopDead ->
            loop_of_label a = Some l0 -> l0 <> l).
  { intros l0 pc w c Hl0 Hpc Ha ->. destruct Hwhy as [Hne|Hdead]; [congruence|].
    rewrite Hth in Hl0. injection Hl0 as ->. simpl in Hdead. congruence. }
  destruct T as [i f starts s Hflag|i f starts s Hflag|w c t q s Hw Hq|w t s Hw
                |w t m s Hw|l0 w c fr t s Hl Hw Hc|l0 w g c d s Hl Hd
                |l0 w g c d e s Hl Hd He|l0 w g c d e s Hl Hd He
                |l0 w c fr t s Hl Hw Hc Hi|l0 w c fr t s Hl Hw Hc Hi
                |l0 w c fr t s Hl Hw Hc Hi];
    simpl; rewrite ?omap_app; simpl; rewrite ?omap_EvWorker by done;
    rewrite ?app_nil_r; try done;
    try (split; [by apply lookup_app_l_Some | done]);
    (assert (Hne : l0 <> l) by (by eapply Hother));
    rewrite list_lookup_insert_ne by done; rewrite ?decide_False by done;
    by rewrite ?app_nil_r.
Qed.

Lemma loop_untouched_run ls s s' l th (why : label -> Prop) :
  (forall a, why a -> loop_of_label a <> Some l \/ r_pc th = LoopDead) ->
  Forall why ls ->
  exec ls s = Some s' ->
  loops s !! l = Some th ->
  loops s' !! l = Some th
  /\ invocations l (history s') = invocations l (history s)
  /\ sleeps l (history s') = sleeps l (history s).
Proof.
  intros Hwhy Hls Hrun Hth.
  apply (exec_Forall_invariant why
           (fun s1 => loops s1 !! l = Some th
                      /\ invocations l (history s1) = invocations l (history s)
                      /\ sleeps l (history s1) = sleeps l (history s))
           ) with (ls := ls) (s := s); try done.
  intros a s1 s2 Ha T (Hl & Hi & Hs).
  destruct (loop_untouched_step a s1 s2 l th T Hl (Hwhy a Ha)) as (? & ? & ?).
  repeat split; congruence.
Qed.

(** X5. A loop that has ended stays ended.  Whatever the program does after
    a loop has left its [while] (more tasks scheduled, other loops running,
    the same action raising elsewhere), that loop is never restarted: its
    record does not change and it makes no further call and no further
    sleep. *)
Theorem ended_loop_never_runs_again (ls : list label) (s s' : state) (l : nat)
    (th : run_task_thread) :
  exec ls s = Some s' ->
  loops s !! l = Some th ->
  r_pc th = LoopDead ->
  loops s' !! l = Some th
  /\ invocations l (history s') = invocations l (history s)
  /\ sleeps l (history s') = sleeps l (history s).
Proof.
  intros Hrun Hth Hdead.
  apply (loop_untouched_run ls s s' l th (fun _ => True)); try done.
  - intros a _. by right.
  - by apply Forall_true.
Qed.

Lemma ended_loop_never_runs_again_witness :
  loops (after_run (ended_by_negative_interval ++ later_activity)) !! 0
  = Some (RunTask 0 LoopDead 0)
  /\ invocations 0 (history (after_run (ended_by_negative_interval ++ later_activity)))
     = [(counting_action, 0%Q)].
Proof.
  destruct (ended_loop_never_runs_again later_activity
              (after_run ended_by_negative_interval)
              (after_run (ended_by_negative_interval ++ later_activity))
              0 (RunTask 0 LoopDead 0))
    as (Hth & Hcalls & _); try (vm_compute; reflexivity).
  split; [exact Hth|]. rewrite Hcalls. vm_compute. reflexivity.
Defined.



(** ** A loop that reads one tuple throughout *)

(** Only a [get] of worker [w] changes what the cells of [w] hold. *)
Lemma cells_kept_step a s s' w fr t :
  transition a s s' ->
  a <> WorkerGet w ->
  workers s !! w = Some fr ->
  w_cells fr = Some t ->
  exists fr', workers s' !! w = Some fr' /\ w_cells fr' = Some t.
Proof.
  intros T Hne Hw Hc.
  destruct T as [i f starts s Hflag|i f starts s Hflag|w0 c t0 q s Hw0 Hq|w0 t0 s Hw0
                |w0 t0 m s Hw0|l w0 c fr0 t0 s Hl Hw0 Hc0|l w0 g c d s Hl Hd
                |l w0 g c d e s Hl Hd He|l w0 g c d e s Hl Hd He
                |l w0 c fr0 t0 s Hl Hw0 Hc0 Hi|l w0 c fr0 t0 s Hl Hw0 Hc0 Hi
                |l w0 c fr0 t0 s Hl Hw0 Hc0 Hi];
    simpl; eauto.
  - exists fr. split; [by apply lookup_app_l_Some | done].
  - assert (w0 <> w) by congruence.
    exists fr. split; [by rewrite list_lookup_insert_ne | done].
  - destruct (decide (w0 = w)) as [->|Hw0w].
    + rewrite Hw in Hw0. injection Hw0 as ->. simpl in Hc.
      eexists. split; [apply list_lookup_insert_eq; by eapply lookup_lt_Some | done].
    + exists fr. split; [by rewrite list_lookup_insert_ne | done].
  - destruct (decide (w0 = w)) as [->|Hw0w].
    + rewrite Hw in Hw0. injection Hw0 as ->. simpl in Hc.
      eexists. split; [apply list_lookup_insert_eq; by eapply lookup_lt_Some | done].
    + exists fr. split; [by rewrite list_lookup_insert_ne | done].
Qed.

(** What one step of the program does to loop [l] when the cells that [l]
    reads hold [(i, f)]. *)
Lemma loop_step_own_cells a s s' l th fr i f :
  transition a s s' ->
  loops s !! l = Some th ->
  workers s !! r_frame th = Some fr ->
  w_cells fr = Some (i, f) ->
  exists th',
    loops s' !! l = Some th'
    /\ r_frame th' = r_frame th
    /\ pc_before l a (r_pc th)
    /\ r_pc th' = next_pc l i f a (r_pc th)
    /\ invocations l (history s')
       = invocations l (history s) ++ (if is_call l a then [(f, r_clock th)] else [])
    /\ sleeps l (history s') = sleeps l (history s) ++ slept l i a.
Proof.
  unfold invocations, sleeps, slept. intros T Hth Hw Hc.
  assert (Hlt : l < length (loops s)) by (by eapply lookup_lt_Some).
  destruct T as [i0 f0 starts s Hflag|i0 f0 starts s Hflag|w0 c t0 q s Hw0 Hq|w0 t0 s Hw0
                |w0 t0 m s Hw0|l0 w0 c fr0 t0 s Hl Hw0 Hc0|l0 w0 g c d s Hl Hd
                |l0 w0 g c d e s Hl Hd He|l0 w0 g c d e s Hl Hd He
                |l0 w0 c fr0 t0 s Hl Hw0 Hc0 Hi|l0 w0 c fr0 t0 s Hl Hw0 Hc0 Hi
                |l0 w0 c fr0 t0 s Hl Hw0 Hc0 Hi];
    simpl; rewrite ?omap_app; simpl; rewrite ?omap_EvWorker by done;
    rewrite ?app_nil_r.
  all: try (exists th; repeat split; try done; by apply lookup_app_l_Some).
  all: destruct (decide (l0 = l)) as [->|Hne];
    [rewrite Hth in Hl; injection Hl as ->; simpl in *;
     rewrite ?Hw in *; simplify_eq; simpl in *;
     rewrite ?bool_decide_eq_true_2 by done;
     eexists; (split; [by apply list_lookup_insert_eq|])
    |exists th; rewrite ?bool_decide_eq_false_2 by done;
     (split; [by rewrite list_lookup_insert_ne|])].
  all: rewrite ?decide_True by done; rewrite ?decide_False by done;
    simpl; rewrite ?app_nil_r.
  all: rewrite ?He; try rewrite Hi; repeat split; try done; eauto.
  all: destruct (time_sleep i); by rewrite ?app_nil_r.
Qed.

(** A run in which no step is a [get] of worker [w] leaves the cells of [w]
    as they are. *)
Lemma cells_kept_run (ok : label -> Prop) w t :
  (forall a, ok a -> a <> WorkerGet w) ->
  forall ls s s' fr,
    Forall ok ls ->
    exec ls s = Some s' ->
    workers s !! w = Some fr ->
    w_cells fr = Some t ->
    exists fr', workers s' !! w = Some fr' /\ w_cells fr' = Some t.
Proof.
  intros Hok ls s s' fr Hls Hrun Hw Hc.
  apply (exec_Forall_invariant ok
           (fun s1 => exists fr1, workers s1 !! w = Some fr1 /\ w_cells fr1 = Some t))
    with (ls := ls) (s := s); eauto.
  intros a s1 s2 Ha T (fr1 & Hw1 & Hc1). eapply cells_kept_step; eauto.
Qed.

Lemma calls_in_cons l a ls :
  calls_in l (a :: ls) = (if is_call l a then 1 else 0) + calls_in l ls.
Proof.
  unfold calls_in. rewrite filter_cons. by destruct (is_call l a).
Qed.

Lemma sleeps_in_cons l a ls :
  sleeps_in l (a :: ls) = (if is_sleep l a then 1 else 0) + sleeps_in l ls.
Proof.
  unfold sleeps_in. rewrite filter_cons. by destruct (is_sleep l a).
Qed.

(** While its worker takes no further tuple, a loop whose interval
    [time.sleep] accepts, whose calls end by a return or a caught exception
    and whose sleeps are granted, stays alive; every call is of the action
    in the cells, every sleep lasts the interval in the cells. *)
Lemma own_task_run l i f ls :
  time_sleep i = SleepReturns ->
  forall s s' th fr,
    Forall (lets_turn l (r_frame th)) ls ->
    exec ls s = Some s' ->
    loops s !! l = Some th ->
    r_pc th <> LoopDead ->
    workers s !! r_frame th = Some fr ->
    w_cells fr = Some (i, f) ->
    exists th' ts,
      loops s' !! l = Some th'
      /\ r_frame th' = r_frame th
      /\ r_pc th' <> LoopDead
      /\ invocations l (history s')
         = invocations l (history s) ++ map (fun t => (f, t)) ts
      /\ length ts = calls_in l ls
      /\ sleeps l (history s') = sleeps l (history s) ++ replicate (sleeps_in l ls) i
      /\ calls_in l ls + in_turn (r_pc th) = sleeps_in l ls + in_turn (r_pc th').
Proof.
  intros Hi. induction ls as [|a ls IH]; intros s s' th fr Hls Hrun Hth Hlive Hw Hc.
  - injection Hrun as <-. exists th, []. simpl. by rewrite !app_nil_r.
  - rewrite exec_cons in Hrun.
    destruct (step a s) as [s1|] eqn:Ha; simpl in Hrun; [|done].
    apply step_transition in Ha.
    apply Forall_cons in Hls as [(Hget & Hrefused & Hdone) Hls].
    destruct (loop_step_own_cells a s s1 l th fr i f Ha Hth Hw Hc)
      as (th1 & Hth1 & Hfr1 & Hpre & Hpc1 & Hinv1 & Hsl1).
    destruct (cells_kept_step a s s1 (r_frame th) fr (i, f) Ha Hget Hw Hc)
      as (fr1 & Hw1 & Hc1).
    assert (Hlive1 : r_pc th1 <> LoopDead
                     /\ (if is_call l a then 1 else 0) + in_turn (r_pc th)
                        = (if is_sleep l a then 1 else 0) + in_turn (r_pc th1)).
    { rewrite Hpc1. clear - Hlive Hpre Hrefused Hdone Hi.
      destruct a as [? ? ?|?|? ?|l0|l0 o d|l0|l0]; simpl in *; try done;
        destruct (decide (l0 = l)) as [->|Hne];
        rewrite ?bool_decide_eq_true_2, ?bool_decide_eq_false_2 by done;
        try done.
      - by rewrite (Hpre eq_refl).
      - destruct (Hpre eq_refl) as [g ->]. by rewrite (Hdone o d eq_refl).
      - by rewrite Hi, (Hpre eq_refl). }
    destruct Hlive1 as [Hlive1 Hcount1].
    rewrite <- Hfr1 in Hls, Hw1.
    destruct (IH s1 s' th1 fr1 Hls Hrun Hth1 Hlive1 Hw1 Hc1)
      as (th' & ts & Hth' & Hfr' & Hlive' & Hinv & Hlen & Hsl & Hcount).
    exists th', ((if is_call l a then [r_clock th] else []) ++ ts).
    rewrite calls_in_cons, sleeps_in_cons.
    split; [done|]. split; [congruence|]. split; [done|].
    split; [|split; [|split]].
    + rewrite Hinv, Hinv1, <- app_assoc, map_app. by destruct (is_call l a).
    + rewrite length_app, Hlen. by destruct (is_call l a).
    + rewrite Hsl, Hsl1, <- app_assoc. unfold slept. rewrite Hi.
      by destruct (is_sleep l a).
    + lia.
Qed.

(** While its worker takes no further tuple, a loop whose interval
    [time.sleep] rejects never sleeps, makes no call beyond the one it may
    be about to make, and has ended once it has reached its sleep. *)
Lemma rejected_interval_run l i f ls :
  time_sleep i <> SleepReturns ->
  forall s s' th fr,
    Forall (fun a => a <> WorkerGet (r_frame th)) ls ->
    exec ls s = Some s' ->
    loops s !! l = Some th ->
    workers s !! r_frame th = Some fr ->
    w_cells fr = Some (i, f) ->
    exists th' ts,
      loops s' !! l = Some th'
      /\ r_frame th' = r_frame th
      /\ invocations l (history s')
         = invocations l (history s) ++ map (fun t => (f, t)) ts
      /\ length ts + calls_left (r_pc th') = calls_left (r_pc th)
      /\ sleeps l (history s') = sleeps l (history s)
      /\ (0 < sleeps_in l ls -> r_pc th' = LoopDead).
Proof.
  intros Hi. induction ls as [|a ls IH]; intros s s' th fr Hls Hrun Hth Hw Hc.
  - injection Hrun as <-. exists th, []. simpl. rewrite !app_nil_r.
    repeat split; try done. unfold sleeps_in. simpl. lia.
  - rewrite exec_cons in Hrun.
    destruct (step a s) as [s1|] eqn:Ha; simpl in Hrun; [|done].
    apply step_transition in Ha.
    apply Forall_cons in Hls as [Hget Hls].
    destruct (loop_step_own_cells a s s1 l th fr i f Ha Hth Hw Hc)
      as (th1 & Hth1 & Hfr1 & Hpre & Hpc1 & Hinv1 & Hsl1).
    destruct (cells_kept_step a s s1 (r_frame th) fr (i, f) Ha Hget Hw Hc)
      as (fr1 & Hw1 & Hc1).
    assert (Hstep : (if is_call l a then 1 else 0) + calls_left (r_pc th1)
                    = calls_left (r_pc th)
                    /\ slept l i a = []
                    /\ (is_sleep l a = true -> r_pc th1 = LoopDead)).
    { rewrite Hpc1. unfold slept. clear - Hpre Hi.
      destruct a as [? ? ?|?|? ?|l0|l0 o d|l0|l0]; simpl in *; try done;
        destruct (decide (l0 = l)) as [->|Hne];
        rewrite ?bool_decide_eq_true_2, ?bool_decide_eq_false_2 by done;
        try done.
      - by rewrite (Hpre eq_refl).
      - destruct (Hpre eq_refl) as [g ->]. by destruct (handled o).
      - rewrite (Hpre eq_refl). by destruct (time_sleep i).
      - by rewrite (Hpre eq_refl). }
    destruct Hstep as (Hleft1 & Hslept & Hdead1).
    rewrite <- Hfr1 in Hls, Hw1.
    destruct (IH s1 s' th1 fr1 Hls Hrun Hth1 Hw1 Hc1)
      as (th' & ts & Hth' & Hfr' & Hinv & Hleft & Hsl & Hdead).
    exists th', ((if is_call l a then [r_clock th] else []) ++ ts).
    rewrite sleeps_in_cons.
    split; [done|]. split; [congruence|]. split; [|split; [|split]].
    + rewrite Hinv, Hinv1, <- app_assoc, map_app. by destruct (is_call l a).
    + rewrite length_app. destruct (is_call l a); simpl in *; lia.
    + by rewrite Hsl, Hsl1, Hslept, app_nil_r.
    + intros Hpos. destruct (is_sleep l a) eqn:Hsleep; [|apply Hdead; lia].
      specialize (Hdead1 eq_refl).
      destruct (loop_untouched_run ls s1 s' l th1 (fun _ => True)
                  (fun a _ => or_intror Hdead1) (Forall_true _ ls (fun _ => I))
                  Hrun Hth1) as (Hsame & _).
      rewrite Hth' in Hsame. by injection Hsame as ->.
Qed.
(** ** Edge cases of the interval *)

(** X7. A loop ends at the first sleep for which it reads an interval
    that [time.sleep] rejects (a negative one, or one of 2^63 nanoseconds or
    more).  Take a loop that is about to call while the cells it reads hold
    such an interval.  First, its turn runs as far as the sleep: the loop
    makes the call, logs the error of the action if it raised one, and then
    ends in [time.sleep], whose [ValueError] or [OverflowError] is outside the
    [try] and is not written to the log; in every continuation that one call
    stays its only call.  Second, in every run in which the worker that
    started the loop takes no other tuple (a [get] would rebind the cells),
    whatever else the program does meanwhile, the loop never sleeps, makes at
    most one call, which is of the action in the cells, and has ended as soon
    as it has reached its sleep. *)
Theorem rejected_interval_runs_once (s : state) (l w : nat) (c : Q)
    (fr : worker_frame) (i : Q) (f : action) :
  loops s !! l = Some (RunTask w AtCall c) ->
  workers s !! w = Some fr ->
  w_cells fr = Some (i, f) ->
  time_sleep i <> SleepReturns ->
  (forall o d,
     Qle_bool 0 d = true ->
     handled o = true ->
     exists s',
       exec (cycle l o d) s = Some s'
       /\ loops s' !! l = Some (RunTask w LoopDead (c + d))
       /\ history s' = history s ++ [EvInvoke l f c]
       /\ log s' = log s ++ error_line o
       /\ (forall rest s'',
             exec rest s' = Some s'' ->
             invocations l (history s'') = invocations l (history s) ++ [(f, c)]))
  /\ (forall ls s',
        Forall (fun a => a <> WorkerGet w) ls ->
        exec ls s = Some s' ->
        sleeps l (history s') = sleeps l (history s)
        /\ (exists ts, invocations l (history s')
                       = invocations l (history s) ++ map (fun t => (f, t)) ts
                       /\ length ts <= 1)
        /\ (0 < sleeps_in l ls ->
            exists c', loops s' !! l = Some (RunTask w LoopDead c'))).
Proof.
  intros Hl Hw Hc Hi.
  assert (Hlt : l < length (loops s)) by (by eapply lookup_lt_Some).
  split.
  - intros o d Hd Ho.
    assert (Hrun : exec (cycle l o d) s
                   = Some {| task_queue := task_queue s;
                             max_worker_threads := max_worker_threads s;
                             scheduler_started := scheduler_started s;
                             workers := workers s;
                             loops := <[l := RunTask w LoopDead (c + d)]> (loops s);
                             log := log s ++ error_line o;
                             history := history s ++ [EvInvoke l f c] |}).
    { unfold cycle, exec, step.
      unfold task_call, cells_of. rewrite Hl. simpl. rewrite Hw. simpl. rewrite Hc. simpl.
      unfold task_done. simpl. rewrite list_lookup_insert_eq by done. simpl. rewrite Hd.
      destruct o as [|e]; simpl in Ho; rewrite ?Ho; simpl;
        unfold task_sleep, cells_of; simpl;
        rewrite list_insert_insert_eq, list_lookup_insert_eq by done; simpl;
        rewrite Hw; simpl; rewrite Hc; simpl;
        (destruct (time_sleep i); [done| |]);
        unfold observed, set_loop, logged, with_loops; simpl;
        rewrite !list_insert_insert_eq, ?app_nil_r; reflexivity. }
    eexists. split; [exact Hrun|]. simpl.
    assert (Hdead : <[l:=RunTask w LoopDead (c + d)]> (loops s) !! l
                    = Some (RunTask w LoopDead (c + d)))
      by (by apply list_lookup_insert_eq).
    repeat split; try done.
    intros rest s'' Hrest.
    destruct (loop_untouched_run rest _ s'' l (RunTask w LoopDead (c + d))
                (fun _ => True) (fun a _ => or_intror eq_refl)
                (Forall_true _ rest (fun _ => I)) Hrest Hdead) as (_ & Hcalls & _).
    rewrite Hcalls. unfold invocations. simpl. rewrite omap_app. simpl.
    by rewrite decide_True.
  - intros ls s' Hls Hrun.
    destruct (rejected_interval_run l i f ls Hi s s' (RunTask w AtCall c) fr
                Hls Hrun Hl Hw Hc)
      as (th' & ts & Hth' & Hfr' & Hinv & Hleft & Hsl & Hdead).
    split; [exact Hsl|]. split.
    + exists ts. split; [exact Hinv|]. simpl in Hleft. lia.
    + intros Hpos. specialize (Hdead Hpos).
      destruct th' as [w' pc' c']. simpl in *. subst. by exists c'.
Qed.

Lemma rejected_interval_runs_once_witness :
  (exists s',
     exec (cycle 0 (Raised (Exn ValueError "boom")) 0)
       (after_run negative_interval_launched) = Some s'
     /\ loops s' !! 0 = Some (RunTask 0 LoopDead 0)
     /\ log s' = ["Scheduled task error: boom"])
  /\ (exists s',
        exec (cycle 0 Returned 7) (after_run too_long_interval_launched) = Some s'
        /\ loops s' !! 0 = Some (RunTask 0 LoopDead 7)
        /\ invocations 0 (history s') = [(counting_action, 0%Q)]).
Proof.
  split.
  - destruct (rejected_interval_runs_once (after_run negative_interval_launched)
                0 0 0%Q (WorkerFrame AtGet (Some ((-1)%Q, counting_action)))
                (-1)%Q counting_action) as [Hturn _];
      try (vm_compute; reflexivity); [vm_compute; discriminate|].
    destruct (Hturn (Raised (Exn ValueError "boom")) 0%Q)
      as (s' & Hrun & Hl & _ & Hlog & _); try (vm_compute; reflexivity).
    exists s'. repeat split; assumption.
  - destruct (rejected_interval_runs_once (after_run too_long_interval_launched)
                0 0 0%Q (WorkerFrame AtGet (Some (10000000000%Q, counting_action)))
                10000000000%Q counting_action) as [Hturn _];
      try (vm_compute; reflexivity); [vm_compute; discriminate|].
    destruct (Hturn Returned 7%Q)
      as (s' & Hrun & Hl & Hhist & _ & _); try (vm_compute; reflexivity).
    exists s'. split; [exact Hrun|]. split; [exact Hl|].
    rewrite Hhist. vm_compute. reflexivity.
Defined.

(** ** One worker is enough, and nothing bounds the number of loops *)

Lemma serve_run n :
  forall s w c ts,
    workers s !! w = Some (WorkerFrame AtGet c) ->
    task_queue s = ts ->
    length ts = n ->
    exists s',
      exec (serve w n) s = Some s'
      /\ task_queue s' = []
      /\ loops s' = loops s ++ replicate n (RunTask w AtCall 0)
      /\ deliveries (history s') = deliveries (history s) ++ map (fun t => (w, t)) ts
      /\ log s' = log s
      /\ length (workers s') = length (workers s).
Proof.
  induction n as [|n IH]; intros s w c ts Hw Hq Hn.
  - destruct ts; [|done]. exists s. simpl. by rewrite !app_nil_r.
  - destruct ts as [|t ts]; [done|]. injection Hn as Hn.
    assert (Hlt : w < length (workers s)) by (by eapply lookup_lt_Some).
    pose proof (proj2 (step_transition (WorkerGet w) _ _) (T_get w c t ts s Hw Hq))
      as Hget.
    set (s1 := observed (EvGet w t)
                 (set_worker w (WorkerFrame AtStart (Some t)) (with_task_queue ts s)))
      in Hget.
    assert (Hw1 : workers s1 !! w = Some (WorkerFrame AtStart (Some t)))
      by (simpl; by apply list_lookup_insert_eq).
    pose proof (proj2 (step_transition (WorkerStart w Started) _ _)
                  (T_start_ok w t s1 Hw1)) as Hstart.
    set (s2 := set_worker w (WorkerFrame AtGet (Some t))
                 (observed (EvLaunch w (length (loops s1)) t)
                    (with_loops (loops s1 ++ [RunTask w AtCall 0]) s1)))
      in Hstart.
    destruct (IH s2 w (Some t) ts) as (s' & Hrun & Hq' & Hl' & Hd' & Hlog' & Hws');
      [| |exact Hn|].
    { simpl. rewrite list_insert_insert_eq. by apply list_lookup_insert_eq. }
    { reflexivity. }
    exists s'. split.
    { cbn [serve]. rewrite exec_cons, Hget.
      change (exec (WorkerStart w Started :: serve w n) s1 = Some s').
      rewrite exec_cons, Hstart. exact Hrun. }
    simpl in *. rewrite !length_insert in Hws'.
    unfold deliveries in *. rewrite !omap_app in Hd'. simpl in Hd'.
    rewrite app_nil_r, <- !app_assoc in Hd'. rewrite <- app_assoc in Hl'.
    repeat split; done.
Qed.

(** X8. The size of the pool does not bound the number of loops.  In any
    state, a single worker that is at [get] can take every tuple in the
    queue, however many there are, and start a loop for each: the queue ends
    empty, one new loop per tuple exists, all of them closures of that one
    worker's frame, and the tuples were taken in queue order. *)
Theorem one_worker_serves_whole_queue (s : state) (w : nat) (c : option task) :
  workers s !! w = Some (WorkerFrame AtGet c) ->
  exists s',
    exec (serve w (length (task_queue s))) s = Some s'
    /\ task_queue s' = []
    /\ loops s' = loops s ++ replicate (length (task_queue s)) (RunTask w AtCall 0)
    /\ deliveries (history s')
       = deliveries (history s) ++ map (fun t => (w, t)) (task_queue s).
Proof.
  intros Hw.
  destruct (serve_run (length (task_queue s)) s w c (task_queue s) Hw eq_refl eq_refl)
    as (s' & Hrun & Hq & Hl & Hd & _).
  by exists s'.
Qed.

Lemma one_worker_serves_whole_queue_witness :
  exists s',
    exec (serve 4 2) (after_run run_prefix) = Some s'
    /\ loops s' = [RunTask 4 AtCall 0; RunTask 4 AtCall 0].
Proof.
  destruct (one_worker_serves_whole_queue (after_run run_prefix) 4 None)
    as (s' & Hrun & _ & Hl & _); [vm_compute; reflexivity|].
  exists s'. split; [exact Hrun | exact Hl].
Defined.

(** ** The period of a loop *)

Lemma call_times_closed_form (o : outcome) (d i c0 : Q) n :
  forall (m k : nat) (c : Q),
    (c == c0 + inject_Z (Z.of_nat m) * (d + i))%Q ->
    Forall2 (fun t j => (t == c0 + inject_Z (Z.of_nat j) * (d + i))%Q)
      (call_times c i (fun _ => (o, d)) k n) (seq m n)
    /\ (clock_after c i (fun _ => (o, d)) k n
        == c0 + inject_Z (Z.of_nat (m + n)) * (d + i))%Q.
Proof.
  induction n as [|n IH]; intros m k c Hc; simpl.
  - split; [constructor|]. by rewrite Nat.add_0_r.
  - assert (Hnext : (c + d + i == c0 + inject_Z (Z.of_nat (S m)) * (d + i))%Q).
    { rewrite Hc, Nat2Z.inj_succ. unfold Z.succ. rewrite inject_Z_plus. ring. }
    destruct (IH (S m) (S k) _ Hnext) as [Htimes Hclock]. split.
    + by constructor.
    + by replace (m + S n) with (S m + n) by lia.
Qed.

(** X9. The period of a loop is the interval plus the time its action
    takes: the delay is fixed, the rate is not.  When every call takes [d]
    and the cells hold throughout an interval [i] that [time.sleep] accepts
    (not negative and less than 2^63 nanoseconds), and the operating system
    grants the sleeps, [n] turns of a loop whose clock shows [c] make their
    calls at [c], [c + (d + i)], [c + 2 (d + i)], ... and leave the clock at
    [c + n (d + i)]. *)
Theorem period_is_duration_plus_interval (s : state) (l w : nat) (c : Q)
    (fr : worker_frame) (i : Q) (f : action) (o : outcome) (d : Q) (n : nat) :
  loops s !! l = Some (RunTask w AtCall c) ->
  workers s !! w = Some fr ->
  w_cells fr = Some (i, f) ->
  time_sleep i = SleepReturns ->
  Qle_bool 0 d = true ->
  handled o = true ->
  exists s' c' ts,
    exec (cycles l (fun _ => (o, d)) 0 n) s = Some s'
    /\ loops s' !! l = Some (RunTask w AtCall c')
    /\ (c' == c + inject_Z (Z.of_nat n) * (d + i))%Q
    /\ invocations l (history s') = invocations l (history s) ++ map (fun t => (f, t)) ts
    /\ Forall2 (fun t j => (t == c + inject_Z (Z.of_nat j) * (d + i))%Q) ts (seq 0 n).
Proof.
  intros Hl Hw Hc Hi Hd Ho.
  assert (Hlt : l < length (loops s)) by (by eapply lookup_lt_Some).
  assert (Hends : forall k : nat,
            handled (fst (o, d)) = true /\ Qle_bool 0 (snd (o, d)) = true) by done.
  assert (Hc0 : (c == c + inject_Z (Z.of_nat 0) * (d + i))%Q) by (simpl; ring).
  destruct (call_times_closed_form o d i c n 0 0 c Hc0) as [Htimes Hclock].
  eexists _, _, _. split; [|split; [|split; [|split]]].
  - exact (cycles_run l w fr i f (fun _ => (o, d)) n Hi Hends 0 c s Hl Hw Hc).
  - simpl. by apply list_lookup_insert_eq.
  - exact Hclock.
  - simpl. unfold invocations. rewrite omap_app. f_equal.
    apply invocations_cycle_events.
  - exact Htimes.
Qed.

Lemma period_is_duration_plus_interval_witness :
  exists s' c',
    exec (cycles 0 (fun _ => (Returned, 1 # 2)) 0 3) (after_run counting_task_launched)
      = Some s'
    /\ loops s' !! 0 = Some (RunTask 0 AtCall c')
    /\ (c' == 9 # 2)%Q.
Proof.
  destruct (period_is_duration_plus_interval (after_run counting_task_launched)
              0 0 0%Q (WorkerFrame AtGet (Some (1%Q, counting_action)))
              1%Q counting_action Returned (1 # 2) 3)
    as (s' & c' & ts & Hrun & Hl & Hc & _); try (vm_compute; reflexivity).
  exists s', c'. split; [exact Hrun|]. split; [exact Hl|].
  rewrite Hc. reflexivity.
Defined.

(** ** An exception that [except Exception] does not catch *)

(** X10. An action that raises [SystemExit] or [KeyboardInterrupt] ends its
    loop for good and in silence.  Such an exception is not of class
    [Exception]: the step is taken, nothing is written to the log, the loop
    cannot sleep or call any more, and in every continuation of the run the
    call that raised stays the last call of the loop. *)
Theorem base_exception_ends_loop_silently (s : state) (l w : nat) (c : Q)
    (fr : worker_frame) (t : task) (e : exn) (d : Q) :
  loops s !! l = Some (RunTask w AtCall c) ->
  workers s !! w = Some fr ->
  w_cells fr = Some t ->
  is_Exception (exc_cls e) = false ->
  Qle_bool 0 d = true ->
  exists s',
    exec [TaskCall l; TaskDone l (Raised e) d] s = Some s'
    /\ loops s' !! l = Some (RunTask w LoopDead (c + d))
    /\ log s' = log s
    /\ step (TaskSleep l) s' = None
    /\ step (TaskCall l) s' = None
    /\ (forall rest s'',
          exec rest s' = Some s'' ->
          invocations l (history s'') = invocations l (history s) ++ [(snd t, c)]
          /\ sleeps l (history s'') = sleeps l (history s)).
Proof.
  intros Hl Hw Hc He Hd.
  assert (Hlt : l < length (loops s)) by (by eapply lookup_lt_Some).
  assert (Hrun : exec [TaskCall l; TaskDone l (Raised e) d] s
                 = Some {| task_queue := task_queue s;
                           max_worker_threads := max_worker_threads s;
                           scheduler_started := scheduler_started s;
                           workers := workers s;
                           loops := <[l := RunTask w LoopDead (c + d)]> (loops s);
                           log := log s;
                           history := history s ++ [EvInvoke l (snd t) c] |}).
  { unfold exec, step.
    unfold task_call, cells_of. rewrite Hl. simpl. rewrite Hw. simpl. rewrite Hc. simpl.
    unfold task_done. simpl. rewrite list_lookup_insert_eq by done. simpl.
    rewrite Hd, He. simpl.
    unfold observed, set_loop, with_loops; simpl.
    by rewrite list_insert_insert_eq. }
  eexists. split; [exact Hrun|].
  assert (Hdead : <[l:=RunTask w LoopDead (c + d)]> (loops s) !! l
                  = Some (RunTask w LoopDead (c + d)))
    by (by apply list_lookup_insert_eq).
  split; [exact Hdead|]. split; [done|].
  split; [simpl; unfold task_sleep; simpl; by rewrite Hdead|].
  split; [simpl; unfold task_call; simpl; by rewrite Hdead|].
  intros rest s'' Hrest.
  destruct (loop_untouched_run rest _ s'' l (RunTask w LoopDead (c + d))
              (fun _ => True) (fun a _ => or_intror eq_refl)
              (Forall_true _ rest (fun _ => I)) Hrest Hdead) as (_ & Hcalls & Hsleeps).
  rewrite Hcalls, Hsleeps. unfold invocations, sleeps. simpl.
  rewrite !omap_app. simpl. rewrite decide_True by done. by rewrite app_nil_r.
Qed.

Lemma base_exception_ends_loop_silently_witness :
  exists s',
    exec [TaskCall 0; TaskDone 0 (Raised (Exn SystemExit "bye")) 2]
      (after_run counting_task_launched) = Some s'
    /\ loops s' !! 0 = Some (RunTask 0 LoopDead 2)
    /\ log s' = [].
Proof.
  destruct (base_exception_ends_loop_silently (after_run counting_task_launched)
              0 0 0%Q (WorkerFrame AtGet (Some (1%Q, counting_action)))
              (1%Q, counting_action) (Exn SystemExit "bye") 2%Q)
    as (s' & Hrun & Hl & Hlog & _); try (vm_compute; reflexivity).
  exists s'. split; [exact Hrun|]. split; [exact Hl | exact Hlog].
Defined.

(** ** What [time.sleep] accepts *)

(** [time.sleep] goes to sleep for the lengths that are not negative and
    stay below 2^63 nanoseconds (9223372036.854775808 s). *)
Lemma time_sleep_returns_iff (i : Q) :
  time_sleep i = SleepReturns
  <-> (0 <= i /\ i * 1000000000 < inject_Z (2 ^ 63))%Q.
Proof.
  unfold time_sleep.
  destruct (Qle_bool (inject_Z (- 2 ^ 63)) (i * 1000000000)) eqn:Hlo;
    destruct (Qle_bool (inject_Z (2 ^ 63)) (i * 1000000000)) eqn:Hhi;
    destruct (Qle_bool 0 (i * 1000000000)) eqn:Hz; simpl;
    try apply Qle_bool_iff in Hlo; try apply Qle_bool_iff in Hhi;
    try apply Qle_bool_iff in Hz;
    try (assert (Hlo' : ~ (inject_Z (- 2 ^ 63) <= i * 1000000000)%Q)
           by (rewrite <- Qle_bool_iff; congruence); clear Hlo);
    try (assert (Hhi' : ~ (inject_Z (2 ^ 63) <= i * 1000000000)%Q)
           by (rewrite <- Qle_bool_iff; congruence); clear Hhi);
    try (assert (Hz' : ~ (0 <= i * 1000000000)%Q)
           by (rewrite <- Qle_bool_iff; congruence); clear Hz);
    destruct i as [a b]; unfold Qle, Qlt, Qmult, inject_Z in *; simpl in *;
    (split; [try discriminate; intros _ | intros [H0 H1]; try reflexivity; exfalso]);
    lia.
Qed.

(** ** A raising action and the life of its loop *)

(** A loop that has ended makes no further call, whatever the program goes
    on to do. *)
Lemma ended_loop_calls ls s s' l th :
  exec ls s = Some s' ->
  loops s !! l = Some th ->
  r_pc th = LoopDead ->
  invocations l (history s') = invocations l (history s)
  /\ step (TaskCall l) s' = None.
Proof.
  intros Hrun Hth Hdead.
  destruct (loop_untouched_run ls s s' l th (fun _ => True)
              (fun a _ => or_intror Hdead) (Forall_true _ ls (fun _ => I)) Hrun Hth)
    as (Hth' & Hcalls & _).
  split; [exact Hcalls|]. simpl. unfold task_call. rewrite Hth'. simpl.
  by rewrite Hdead.
Qed.

(** C2 as the specification has it fails.  An action that raises
    [ValueError] at its first call, scheduled with an interval of 10^10
    seconds: the error is logged, and then [time.sleep] raises
    [OverflowError] outside the [try]; the loop has ended after one call and
    makes no other, whatever the program goes on to do.  The same happens
    with interval -1 ([ValueError] of [time.sleep]).  And an action that
    raises [SystemExit], which [except Exception] does not catch, ends its
    loop at once, with nothing logged. *)
Lemma failing_action_can_end_its_loop :
  (is_Some (exec failing_task_too_long init)
   /\ loops (after_run failing_task_too_long) !! 0 = Some (RunTask 0 LoopDead 0)
   /\ log (after_run failing_task_too_long) = ["Scheduled task error: boom"]
   /\ forall rest s,
        exec rest (after_run failing_task_too_long) = Some s ->
        invocations 0 (history s) = [(counting_action, 0%Q)]
        /\ step (TaskCall 0) s = None)
  /\ (is_Some (exec failing_task_negative init)
      /\ loops (after_run failing_task_negative) !! 0 = Some (RunTask 0 LoopDead 0)
      /\ log (after_run failing_task_negative) = ["Scheduled task error: boom"]
      /\ forall rest s,
           exec rest (after_run failing_task_negative) = Some s ->
           invocations 0 (history s) = [(counting_action, 0%Q)]
           /\ step (TaskCall 0) s = None)
  /\ (is_Some (exec task_raising_system_exit init)
      /\ loops (after_run task_raising_system_exit) !! 0 = Some (RunTask 0 LoopDead 0)
      /\ log (after_run task_raising_system_exit) = []
      /\ forall rest s,
           exec rest (after_run task_raising_system_exit) = Some s ->
           invocations 0 (history s) = [(counting_action, 0%Q)]
           /\ step (TaskCall 0) s = None).
Proof.
  split; [|split];
    (split; [vm_compute; by eexists|]);
    (split; [vm_compute; reflexivity|]);
    (split; [vm_compute; reflexivity|]);
    intros rest s Hrest;
    (destruct (ended_loop_calls rest _ s 0 (RunTask 0 LoopDead 0) Hrest)
       as [-> Hstuck]; [vm_compute; reflexivity | reflexivity |]);
    (split; [vm_compute; reflexivity | exact Hstuck]).
Qed.

(** C2, amended.  An action that raises does not end its loop, as far as
    the action goes.  First, in any state, when the call in progress in a
    loop ends with an exception of class [Exception], the step is taken,
    "Scheduled task error: <message>" is appended to the log and the loop is
    at its sleep.  Second, while the cells that the loop reads hold an
    interval that [time.sleep] accepts, and every call raises such an
    exception, [n] turns of the loop can be run for every [n]; they make
    exactly [n] calls, all of the action in the cells, and log exactly the
    [n] errors in order, and the loop is then alive, about to call again.
    Third, in every run in which the worker that started the loop takes no
    further tuple, the calls of the loop that end do so by a return or by
    such an exception and the sleeps of the loop are granted, whatever the
    other threads do meanwhile, the loop has not ended, every call it made
    was of the action in the cells, and after [n] completed turns it has made
    [n] calls. *)
Theorem failing_action_never_stops_loop :
  (forall s l w g c e d,
     loops s !! l = Some (RunTask w (InAction g) c) ->
     is_Exception (exc_cls e) = true ->
     Qle_bool 0 d = true ->
     exists s',
       step (TaskDone l (Raised e) d) s = Some s'
       /\ log s' = log s ++ ["Scheduled task error: " +:+ exc_msg e]
       /\ loops s' !! l = Some (RunTask w AtSleep (c + d)))
  /\ (forall s l w c fr i f (errs : nat -> exn) (durs : nat -> Q) n,
        loops s !! l = Some (RunTask w AtCall c) ->
        workers s !! w = Some fr ->
        w_cells fr = Some (i, f) ->
        time_sleep i = SleepReturns ->
        (forall k, is_Exception (exc_cls (errs k)) = true) ->
        (forall k, Qle_bool 0 (durs k) = true) ->
        exists s' c',
          exec (cycles l (fun k => (Raised (errs k), durs k)) 0 n) s = Some s'
          /\ loops s' !! l = Some (RunTask w AtCall c')
          /\ length (invocations l (history s')) = length (invocations l (history s)) + n
          /\ (exists ts, length ts = n
                /\ invocations l (history s')
                   = invocations l (history s) ++ map (fun t => (f, t)) ts)
          /\ log s' = log s ++
               map (fun k => "Scheduled task error: " +:+ exc_msg (errs k)) (seq 0 n))
  /\ (forall ls s s' l th fr i f,
        loops s !! l = Some th ->
        r_pc th <> LoopDead ->
        workers s !! r_frame th = Some fr ->
        w_cells fr = Some (i, f) ->
        time_sleep i = SleepReturns ->
        Forall (lets_turn l (r_frame th)) ls ->
        exec ls s = Some s' ->
        exists th' ts,
          loops s' !! l = Some th'
          /\ r_pc th' <> LoopDead
          /\ invocations l (history s')
             = invocations l (history s) ++ map (fun t => (f, t)) ts
          /\ length ts = calls_in l ls
          /\ (r_pc th = AtCall -> r_pc th' = AtCall -> length ts = sleeps_in l ls)).
Proof.
  split; [|split].
  - intros s l w g c e d Hl He Hd.
    assert (Hlt : l < length (loops s)) by (by eapply lookup_lt_Some).
    eexists. split; [|split].
    + apply step_transition. by eapply T_caught.
    + done.
    + simpl. by apply list_lookup_insert_eq.
  - intros s l w c fr i f errs durs n Hl Hw Hc Hi Herrs Hdurs.
    assert (Hlt : l < length (loops s)) by (by eapply lookup_lt_Some).
    assert (Hends : forall k,
              handled (fst (Raised (errs k), durs k)) = true
              /\ Qle_bool 0 (snd (Raised (errs k), durs k)) = true).
    { intros k. split; simpl; [apply Herrs | apply Hdurs]. }
    eexists _, _. split; [|split; [|split; [|split]]].
    + exact (cycles_run l w fr i f _ n Hi Hends 0 c s Hl Hw Hc).
    + simpl. by apply list_lookup_insert_eq.
    + simpl. unfold invocations. rewrite omap_app, length_app.
      fold (invocations l (cycle_events l f c i
              (fun k => (Raised (errs k), durs k)) 0 n)).
      by rewrite invocations_cycle_events, length_map, length_call_times.
    + eexists. split; [apply (length_call_times c i
                                (fun k => (Raised (errs k), durs k)) 0 n)|].
      simpl. unfold invocations. rewrite omap_app. f_equal.
      apply invocations_cycle_events.
    + simpl. by rewrite error_lines_always_raising.
  - intros ls s s' l th fr i f Hth Hlive Hw Hc Hi Hls Hrun.
    destruct (own_task_run l i f ls Hi s s' th fr Hls Hrun Hth Hlive Hw Hc)
      as (th' & ts & Hth' & _ & Hlive' & Hinv & Hlen & _ & Hcount).
    exists th', ts. repeat split; try done.
    intros Hpc Hpc'. rewrite Hpc, Hpc' in Hcount. simpl in Hcount. lia.
Qed.

Lemma failing_action_never_stops_loop_witness :
  exists s' th',
    exec two_failing_turns_among_others (after_run counting_task_launched) = Some s'
    /\ loops s' !! 0 = Some th'
    /\ r_pc th' <> LoopDead
    /\ length (invocations 0 (history s')) = 2
    /\ loops s' !! 1 = Some (RunTask 1 LoopDead 2).
Proof.
  assert (Hrun : is_Some (exec two_failing_turns_among_others
                            (after_run counting_task_launched)))
    by (vm_compute; by eexists).
  destruct Hrun as [s' Hrun].
  destruct (proj2 (proj2 failing_action_never_stops_loop)
              two_failing_turns_among_others (after_run counting_task_launched) s'
              0 (RunTask 0 AtCall 0) (WorkerFrame AtGet (Some (1%Q, counting_action)))
              1%Q counting_action)
    as (th' & ts & Hth' & Hlive & Hinv & Hlen & _);
    try (vm_compute; reflexivity); try done.
  { unfold two_failing_turns_among_others.
    repeat (apply List.Forall_cons; [|]); try apply List.Forall_nil;
      (split; [discriminate || (intros [= ?]; discriminate)|split; [discriminate|]]);
      intros o d Heq; try discriminate Heq; by injection Heq as <- <-. }
  exists s', th'. split; [exact Hrun|]. split; [exact Hth'|]. split; [exact Hlive|].
  split.
  - rewrite Hinv, length_app, length_map, Hlen. vm_compute. reflexivity.
  - vm_compute in Hrun. injection Hrun as <-. vm_compute. reflexivity.
Defined.

(** ** Fixed delay between the calls of a loop *)

(** C3, amended.  While the cells that a loop reads hold the tuple [(i, f)]
    (as they do from its launch until its worker takes another tuple), with
    [i] a length that [time.sleep] accepts (not negative and less than 2^63
    nanoseconds), any number [n] of turns can be run, when each call returns
    or raises an exception of class [Exception] and the sleeps are granted;
    every one of them sleeps exactly [i], and each call begins exactly [i]
    after the call before it ended: the calls are at [call_times].  With
    interval 1 and calls that take no time, a loop started at time 0 has made
    exactly 4 calls by time 3.5, however many turns it has run beyond that.
    And in every run in which the worker of the loop takes no further tuple,
    the calls of the loop end by a return or by such an exception and its
    sleeps are granted, whatever the other threads do meanwhile, every sleep
    of the loop lasts exactly [i]. *)
Theorem fixed_delay_between_calls :
  (forall s l w c fr i f (ends : nat -> outcome * Q) n,
     loops s !! l = Some (RunTask w AtCall c) ->
     workers s !! w = Some fr ->
     w_cells fr = Some (i, f) ->
     time_sleep i = SleepReturns ->
     (forall k, handled (fst (ends k)) = true /\ Qle_bool 0 (snd (ends k)) = true) ->
     exists s',
       exec (cycles l ends 0 n) s = Some s'
       /\ sleeps l (history s') = sleeps l (history s) ++ replicate n i
       /\ invocations l (history s')
          = invocations l (history s) ++ map (fun t => (f, t)) (call_times c i ends 0 n)
       /\ loops s' !! l = Some (RunTask w AtCall (clock_after c i ends 0 n)))
  /\ (forall s l w fr f (outs : nat -> outcome) n,
        loops s !! l = Some (RunTask w AtCall 0) ->
        workers s !! w = Some fr ->
        w_cells fr = Some (1%Q, f) ->
        (forall k, handled (outs k) = true) ->
        4 <= n ->
        exists s',
          exec (cycles l (fun k => (outs k, 0%Q)) 0 n) s = Some s'
          /\ invoked_until (7 # 2) l (history s')
             = invoked_until (7 # 2) l (history s) + 4)
  /\ (forall ls s s' l th fr i f,
        loops s !! l = Some th ->
        r_pc th <> LoopDead ->
        workers s !! r_frame th = Some fr ->
        w_cells fr = Some (i, f) ->
        time_sleep i = SleepReturns ->
        Forall (lets_turn l (r_frame th)) ls ->
        exec ls s = Some s' ->
        sleeps l (history s') = sleeps l (history s) ++ replicate (sleeps_in l ls) i).
Proof.
  split; [|split].
  - intros s l w c fr i f ends n Hl Hw Hc Hi Hends.
    assert (Hlt : l < length (loops s)) by (by eapply lookup_lt_Some).
    eexists. split; [exact (cycles_run l w fr i f ends n Hi Hends 0 c s Hl Hw Hc)|].
    simpl. unfold sleeps, invocations. rewrite !omap_app.
    fold (sleeps l (cycle_events l f c i ends 0 n)).
    fold (invocations l (cycle_events l f c i ends 0 n)).
    rewrite sleeps_cycle_events, invocations_cycle_events.
    repeat split. by apply list_lookup_insert_eq.
  - intros s l w fr f outs n Hl Hw Hc Houts Hn.
    assert (Hends : forall k,
              handled (fst (outs k, 0%Q)) = true
              /\ Qle_bool 0 (snd (outs k, 0%Q)) = true).
    { intros k. split; [apply Houts | reflexivity]. }
    assert (Hone : time_sleep 1 = SleepReturns) by (vm_compute; reflexivity).
    eexists. split;
      [exact (cycles_run l w fr 1 f _ n Hone Hends 0 0%Q s Hl Hw Hc)|].
    simpl. unfold invoked_until, invocations. rewrite omap_app.
    fold (invocations l (cycle_events l f 0 1 (fun k => (outs k, 0%Q)) 0 n)).
    rewrite invocations_cycle_events, filter_app, length_app.
    rewrite (calls_until_three_and_a_half f outs n 0 0 0%Q) by reflexivity.
    f_equal. lia.
  - intros ls s s' l th fr i f Hth Hlive Hw Hc Hi Hls Hrun.
    by destruct (own_task_run l i f ls Hi s s' th fr Hls Hrun Hth Hlive Hw Hc)
      as (th' & ts & _ & _ & _ & _ & _ & Hsl & _).
Qed.

Lemma fixed_delay_between_calls_witness :
  exists s',
    exec (cycles 0 (fun _ => (Returned, 0%Q)) 0 6) (after_run counting_task_launched)
      = Some s'
    /\ invoked_until (7 # 2) 0 (history s') = 4.
Proof.
  destruct (proj1 (proj2 fixed_delay_between_calls)
              (after_run counting_task_launched) 0 0
              (WorkerFrame AtGet (Some (1%Q, counting_action))) counting_action
              (fun _ => Returned) 6)
    as (s' & Hrun & Hcount);
    try (intros; vm_compute; reflexivity).
  { lia. }
  exists s'. split; [exact Hrun|]. rewrite Hcount. vm_compute. reflexivity.
Defined.

(** ** Calls of [schedule_task] that overlap, and starts from elsewhere *)

Lemma pexec_cons a ls p : pexec (a :: ls) p = p' ← pstep a p; pexec ls p'.
Proof. reflexivity. Qed.

Lemma pending_app cs x :
  pending (cs ++ [x]) = pending cs ++ (if caller_returned x then [] else [x]).
Proof.
  unfold pending. rewrite filter_app. f_equal. rewrite filter_cons.
  by destruct (caller_returned x).
Qed.

Lemma pending_all_returned cs :
  forallb caller_returned cs = true -> pending cs = [].
Proof.
  unfold pending. induction cs as [|pc cs IH]; simpl; [done|].
  intros [Hpc Hcs]%andb_prop. rewrite filter_cons, Hpc. simpl. by apply IH.
Qed.

Lemma pending_insert cs c pc y x :
  cs !! c = Some pc ->
  caller_returned pc = false ->
  pending cs = [y] ->
  pc = y /\ pending (<[c := x]> cs) = (if caller_returned x then [] else [x]).
Proof.
  intros Hc Hpc Hy. unfold pending in *.
  rewrite insert_take_drop by (by eapply lookup_lt_Some).
  rewrite <- (take_drop_middle cs c pc Hc) in Hy.
  rewrite filter_app, filter_cons, Hpc in Hy. simpl in Hy.
  rewrite filter_app, filter_cons.
  destruct (filter _ (take c cs)) as [|z zs] eqn:Ht; simpl in Hy.
  - injection Hy as -> Hd. rewrite Hd. split; [done|].
    by destruct (caller_returned x).
  - injection Hy as -> Hd. by destruct zs.
Qed.

Lemma pending_lookup cs c pc :
  cs !! c = Some pc -> caller_returned pc = false -> pending cs <> [].
Proof.
  intros Hc Hpc Hnil. unfold pending in Hnil.
  rewrite <- (take_drop_middle cs c pc Hc) in Hnil.
  rewrite filter_app, filter_cons, Hpc in Hnil. simpl in Hnil.
  by destruct (filter _ (take c cs)).
Qed.

Lemma returned_insert cs c pc x :
  cs !! c = Some pc ->
  Exists (fun pc => caller_returned pc = true) (<[c := x]> cs) ->
  caller_returned x = true \/ Exists (fun pc => caller_returned pc = true) cs.
Proof.
  intros Hc. rewrite insert_take_drop by (by eapply lookup_lt_Some).
  rewrite <- (take_drop_middle cs c pc Hc) at 3.
  rewrite !Exists_app, !Exists_cons. tauto.
Qed.

(** What a step other than a call of [schedule_task] leaves as it is. *)
Lemma pool_untouched_step a s s' :
  transition a s s' ->
  is_Schedule a = false ->
  scheduler_started s' = scheduler_started s
  /\ scheduler_starts (history s') = scheduler_starts (history s)
  /\ max_worker_threads s' = max_worker_threads s
  /\ length (workers s') = length (workers s)
  /\ worker_start_failures (log s') = worker_start_failures (log s).
Proof.
  unfold scheduler_starts, worker_start_failures. intros T Ha.
  destruct T; try discriminate Ha; simpl;
    rewrite ?length_insert, ?omap_app, ?filter_app, ?length_app, ?filter_cons;
    simpl; rewrite ?app_nil_r, ?Nat.add_0_r; done.
Qed.

(** What [_start_task_scheduler] does to the pool. *)
Lemma start_task_scheduler_pool starts s :
  let s' := snd (_start_task_scheduler starts s) in
  scheduler_started s' = scheduler_started s
  /\ scheduler_starts (history s') = S (scheduler_starts (history s))
  /\ max_worker_threads s' = max_worker_threads s
  /\ length (workers s') + worker_start_failures (log s')
     = length (workers s) + worker_start_failures (log s) + max_worker_threads s
  /\ task_queue s' = task_queue s.
Proof.
  rewrite start_task_scheduler_spec. simpl.
  unfold scheduler_starts, worker_start_failures.
  rewrite omap_app, !length_app, filter_app, length_app, length_replicate. simpl.
  rewrite omap_EvWorker by done. simpl.
  pose proof (started_plus_failed starts (max_worker_threads s) 0) as Hsum.
  unfold worker_start_failures in Hsum. repeat split; lia.
Qed.

Lemma schedule_task_pool i f starts s :
  let s' := snd (schedule_task i f starts s) in
  scheduler_started s' = true
  /\ scheduler_starts (history s')
     = (if scheduler_started s then 0 else 1) + scheduler_starts (history s)
  /\ max_worker_threads s' = max_worker_threads s
  /\ length (workers s') + worker_start_failures (log s')
     = length (workers s) + worker_start_failures (log s)
       + (if scheduler_started s then 0 else max_worker_threads s).
Proof.
  rewrite schedule_task_spec. simpl.
  unfold scheduler_starts, worker_start_failures.
  destruct (scheduler_started s) eqn:Hflag; simpl.
  - rewrite omap_app. simpl. rewrite app_nil_r. repeat split; try done; lia.
  - rewrite omap_app, !length_app, filter_app, length_app, length_replicate. simpl.
    rewrite omap_EvWorker by done. simpl.
    pose proof (started_plus_failed starts (max_worker_threads s) 0) as Hsum.
    unfold worker_start_failures in Hsum. repeat split; lia.
Qed.

(** Whatever the threads do, overlapping calls and starts from elsewhere
    included, each entry into [_start_task_scheduler] is matched by five
    workers or log lines. *)
Lemma entries_accounted_pstep a p p' :
  pstep a p = Some p' -> entries_accounted p -> entries_accounted p'.
Proof.
  unfold entries_accounted, entries. intros Hstep [Hmax Hacc].
  destruct a as [a|i f|c|c|c starts|starts]; simpl in Hstep.
  - destruct (step a (shared p)) as [s1|] eqn:Ha; simpl in Hstep; [|done].
    injection Hstep as <-. simpl.
    destruct (is_Schedule a) eqn:Hsch.
    + destruct a as [i f starts| | | | | |]; try discriminate Hsch.
      simpl in Ha. injection Ha as <-.
      destruct (schedule_task_pool i f starts (shared p)) as (_ & He & Hm & Hw).
      rewrite He, Hm, Hw. destruct (scheduler_started (shared p)); lia.
    + apply step_transition in Ha.
      destruct (pool_untouched_step a _ _ Ha Hsch) as (_ & He & Hm & Hw & Hl).
      rewrite He, Hm, Hw, Hl. done.
  - injection Hstep as <-. simpl. unfold scheduler_starts in *.
    rewrite omap_app. simpl. by rewrite app_nil_r.
  - destruct (callers p !! c) as [[| | |]|]; simpl in Hstep; try done.
    by injection Hstep as <-.
  - destruct (callers p !! c) as [[| | |]|]; simpl in Hstep; try done.
    by injection Hstep as <-.
  - destruct (callers p !! c) as [[| | |]|]; simpl in Hstep; try done.
    injection Hstep as <-. simpl.
    destruct (start_task_scheduler_pool starts (shared p)) as (_ & He & Hm & Hw & _).
    rewrite He, Hm, Hw. lia.
  - injection Hstep as <-. simpl.
    destruct (start_task_scheduler_pool starts (shared p)) as (_ & He & Hm & Hw & _).
    rewrite He, Hm, Hw. lia.
Qed.

Lemma entries_accounted_run ls :
  forall p p', pexec ls p = Some p' -> entries_accounted p -> entries_accounted p'.
Proof.
  induction ls as [|a ls IH]; intros p p' Hrun Hacc; simpl in Hrun.
  - by injection Hrun as <-.
  - destruct (pstep a p) as [p1|] eqn:Ha; simpl in Hrun; [|done].
    eapply IH; [exact Hrun|]. by eapply entries_accounted_pstep.
Qed.

Lemma entries_accounted_init : entries_accounted program_init.
Proof. by split. Qed.

Lemma insert_not_nil {A} (cs : list A) c x y : cs !! c = Some y -> <[c := x]> cs <> [].
Proof.
  intros Hc Hnil. apply lookup_lt_Some in Hc.
  apply (f_equal length) in Hnil. rewrite length_insert in Hnil. simpl in Hnil. lia.
Qed.

(** While calls do not overlap, the flag tells whether
    [_start_task_scheduler] has been entered, and it is entered once. *)
Lemma one_caller_inv_pstep a p p' :
  pstep a p = Some p' ->
  is_DirectStart a = false ->
  (enters a = true -> forallb caller_returned (callers p) = true) ->
  one_caller_inv p ->
  one_caller_inv p'.
Proof.
  unfold one_caller_inv, entries. intros Hstep Hdirect Henter (Hnone & Hret & Hcases).
  destruct a as [a|i f|c|c|c starts|starts]; simpl in Hstep; try discriminate Hdirect.
  - destruct (step a (shared p)) as [s1|] eqn:Ha; simpl in Hstep; [|done].
    injection Hstep as <-. simpl.
    destruct (is_Schedule a) eqn:Hsch.
    + pose proof (pending_all_returned _ (Henter Hsch)) as Hpend.
      destruct a as [i f starts| | | | | |]; try discriminate Hsch.
      simpl in Ha. injection Ha as <-.
      destruct (schedule_task_pool i f starts (shared p)) as (Hf & He & _).
      assert (Hone : scheduler_starts (history (snd (schedule_task i f starts (shared p))))
                     = 1).
      { rewrite He. destruct Hcases as [[_ Hn]|[[Hp _]|[[Hp _]|[Hp _]]]];
          try (by rewrite Hpend in Hp).
        rewrite Hn. by destruct (scheduler_started (shared p)). }
      split; [intros Hnil; by destruct (callers p)|]. split; [done|]. left.
      rewrite pending_app, Hpend, Hf. done.
    + apply step_transition in Ha.
      destruct (pool_untouched_step a _ _ Ha Hsch) as (Hf & He & _).
      rewrite Hf, He. done.
  - injection Hstep as <-. simpl.
    pose proof (pending_all_returned _ (Henter eq_refl)) as Hpend.
    assert (He : scheduler_starts (history (shared p) ++ [EvPut (i, f)])
                 = scheduler_starts (history (shared p))).
    { unfold scheduler_starts. rewrite omap_app. simpl. by rewrite app_nil_r. }
    rewrite He, pending_app, Hpend. simpl.
    split; [intros Hnil; by destruct (callers p)|]. split.
    + rewrite Exists_app, Exists_cons, Exists_nil. intros [?|[?|?]]; by auto.
    + right. left. split; [done|].
      destruct Hcases as [[_ Hn]|[[Hp _]|[[Hp _]|[Hp _]]]];
        by rewrite ?Hpend in *.
  - destruct (callers p !! c) as [pc|] eqn:Hc; simpl in Hstep; [|done].
    destruct pc; try done. injection Hstep as <-. simpl.
    split; [intros Hnil; by apply (insert_not_nil _ _ _ _ Hc) in Hnil|].
    destruct Hcases as [[Hp _]|[[Hp Hn]|[[Hp _]|[Hp _]]]];
      try (by apply (pending_lookup _ _ _ Hc) in Hp);
      try (by destruct (pending_insert _ _ _ _ AtTest Hc eq_refl Hp) as [? _]).
    destruct (pending_insert _ _ _ _
                (if scheduler_started (shared p) then CallerDone else AtSet)
                Hc eq_refl Hp) as [_ Hp'].
    rewrite Hp'. destruct (scheduler_started (shared p)) eqn:Hflag; simpl.
    + split; [done|]. by left.
    + split; [|by right; right; left].
      intros [?|Hold]%(returned_insert _ _ _ _ Hc); [done|].
      by destruct (Hret Hold).
  - destruct (callers p !! c) as [pc|] eqn:Hc; simpl in Hstep; [|done].
    destruct pc; try done. injection Hstep as <-. simpl.
    split; [intros Hnil; by apply (insert_not_nil _ _ _ _ Hc) in Hnil|].
    destruct Hcases as [[Hp _]|[[Hp _]|[[Hp [Hflag Hn]]|[Hp _]]]];
      try (by apply (pending_lookup _ _ _ Hc) in Hp);
      try (by destruct (pending_insert _ _ _ _ AtTest Hc eq_refl Hp) as [? _]).
    destruct (pending_insert _ _ _ _ AtStartCall Hc eq_refl Hp) as [_ Hp'].
    rewrite Hp'. split; [|by right; right; right].
    intros [?|Hold]%(returned_insert _ _ _ _ Hc); [done|].
    destruct (Hret Hold) as [Htrue _]. congruence.
  - destruct (callers p !! c) as [pc|] eqn:Hc; simpl in Hstep; [|done].
    destruct pc; try done. injection Hstep as <-. simpl.
    split; [intros Hnil; by apply (insert_not_nil _ _ _ _ Hc) in Hnil|].
    destruct Hcases as [[Hp _]|[[Hp _]|[[Hp _]|[Hp [Hflag Hn]]]]];
      try (by apply (pending_lookup _ _ _ Hc) in Hp);
      try (by destruct (pending_insert _ _ _ _ AtTest Hc eq_refl Hp) as [? _]).
    destruct (pending_insert _ _ _ _ CallerDone Hc eq_refl Hp) as [_ Hp'].
    destruct (start_task_scheduler_pool starts (shared p)) as (Hf & He & _).
    rewrite Hp', Hf, He, Hflag, Hn. split; [done|]. by left.
Qed.

Lemma one_caller_inv_run ls :
  forall p p',
    pexec ls p = Some p' ->
    one_call_at_a_time ls p = true ->
    one_caller_inv p ->
    one_caller_inv p'.
Proof.
  induction ls as [|a ls IH]; intros p p' Hrun Hseq Hinv; simpl in Hrun, Hseq.
  - by injection Hrun as <-.
  - destruct (pstep a p) as [p1|] eqn:Ha; simpl in Hrun; [|done].
    apply andb_prop in Hseq as [[Hdirect Henter]%andb_prop Hrest].
    apply (IH p1 p' Hrun Hrest).
    apply (one_caller_inv_pstep a p p1 Ha); [by destruct (is_DirectStart a)| |done].
    intros He. by rewrite He in Henter.
Qed.

Lemma one_caller_inv_init : one_caller_inv program_init.
Proof.
  split; [done|]. split; [by intros ?%Exists_nil|]. by left.
Qed.

(** C5 as the specification has it fails.  After the first call of
    [schedule_task] has started the pool, a second call of
    [_start_task_scheduler], which tests nothing, starts five more workers:
    ten, not five.  And when two threads call [schedule_task] and each reads
    the flag at line 211 before the other has set it at line 212, both go on
    to line 213 and each starts five workers. *)
Lemma second_start_adds_workers :
  (is_Some (pexec started_twice program_init)
   /\ scheduler_starts (history (after_prun started_twice)) = 2
   /\ length (workers (after_prun started_twice)) = 10
   /\ length (workers (after_prun started_twice)) <> max_worker_threads init)
  /\ (is_Some (pexec two_callers_race program_init)
      /\ scheduler_starts (history (after_prun two_callers_race)) = 2
      /\ length (workers (after_prun two_callers_race)) = 10
      /\ length (workers (after_prun two_callers_race)) <> max_worker_threads init).
Proof.
  split; (split; [vm_compute; by eexists|]);
    (split; [vm_compute; reflexivity|]);
    (split; [vm_compute; reflexivity | vm_compute; discriminate]).
Qed.

(** C5, amended.  The pool starts lazily, and once as long as the calls of
    [schedule_task] do not overlap and nothing else calls
    [_start_task_scheduler].  In every such run, whatever the workers and
    the loops do between and during the calls: before the first call there
    is no worker; [_start_task_scheduler] has been entered at most once, and
    exactly once as soon as a call has returned; the workers, together with
    the "Worker thread failed to start" lines of the log, number five per
    entry, so there are never more than [max_worker_threads] = 5 workers, and
    exactly 5 once the pool is started if no thread start failed. *)
Theorem pool_started_once (ls : list plabel) (p : program) :
  pexec ls program_init = Some p ->
  one_call_at_a_time ls program_init = true ->
  (callers p = [] -> workers (shared p) = [])
  /\ entries p <= 1
  /\ (Exists (fun pc => caller_returned pc = true) (callers p) -> entries p = 1)
  /\ length (workers (shared p)) + worker_start_failures (log (shared p))
     = max_worker_threads init * entries p
  /\ length (workers (shared p)) <= max_worker_threads init
  /\ (entries p = 1 ->
      worker_start_failures (log (shared p)) = 0 ->
      length (workers (shared p)) = 5).
Proof.
  intros Hrun Hseq.
  destruct (one_caller_inv_run ls _ _ Hrun Hseq one_caller_inv_init)
    as (Hnone & Hret & Hcases).
  destruct (entries_accounted_run ls _ _ Hrun entries_accounted_init) as [_ Hacc].
  assert (Hle : entries p <= 1).
  { destruct Hcases as [[_ Hn]|[[_ Hn]|[(_ & _ & Hn)|(_ & _ & Hn)]]]; rewrite Hn;
      try destruct (scheduler_started (shared p)); lia. }
  simpl. repeat split.
  - intros Hnil. specialize (Hnone Hnil). rewrite Hnone in Hacc.
    destruct (workers (shared p)); [done|simpl in Hacc; lia].
  - exact Hle.
  - intros Hex. by destruct (Hret Hex).
  - exact Hacc.
  - lia.
  - lia.
Qed.

Lemma pool_started_once_witness :
  exists p,
    pexec run_calls_in_turn program_init = Some p
    /\ entries p = 1
    /\ length (workers (shared p)) = 5
    /\ length (loops (shared p)) = 1.
Proof.
  assert (Hrun : is_Some (pexec run_calls_in_turn program_init))
    by (vm_compute; by eexists).
  destruct Hrun as [p Hrun]. exists p. split; [exact Hrun|].
  destruct (pool_started_once run_calls_in_turn p Hrun)
    as (_ & _ & Hone & _ & _ & Hfive); [vm_compute; reflexivity|].
  assert (Hentries : entries p = 1).
  { apply Hone. vm_compute in Hrun. injection Hrun as <-. simpl.
    apply Exists_cons. by left. }
  split; [exact Hentries|]. split.
  - apply Hfive; [exact Hentries|].
    vm_compute in Hrun. injection Hrun as <-. vm_compute. reflexivity.
  - vm_compute in Hrun. injection Hrun as <-. vm_compute. reflexivity.
Defined.

(** X22. Every entry into [_start_task_scheduler] is accounted for.  In
    every run, with calls of [schedule_task] that overlap and calls of
    [_start_task_scheduler] from elsewhere included, the number of workers
    plus the number of "Worker thread failed to start" lines in the log is
    five times the number of entries into [_start_task_scheduler]: each
    entry makes its five thread starts, whatever the flag says. *)
Theorem every_start_entry_accounted (ls : list plabel) (p : program) :
  pexec ls program_init = Some p ->
  max_worker_threads (shared p) = 5
  /\ length (workers (shared p)) + worker_start_failures (log (shared p))
     = 5 * entries p.
Proof.
  intros Hrun. exact (entries_accounted_run ls _ _ Hrun entries_accounted_init).
Qed.

Lemma every_start_entry_accounted_witness :
  exists p,
    pexec (two_callers_race
           ++ [DirectStart (fun k => if Nat.even k then Started else CannotStart "no")])
      program_init = Some p
    /\ entries p = 3
    /\ length (workers (shared p)) + worker_start_failures (log (shared p)) = 15.
Proof.
  assert (Hrun : is_Some (pexec (two_callers_race
           ++ [DirectStart (fun k => if Nat.even k then Started else CannotStart "no")])
           program_init)) by (vm_compute; by eexists).
  destruct Hrun as [p Hrun]. exists p. split; [exact Hrun|].
  destruct (every_start_entry_accounted _ p Hrun) as [_ Hacc].
  assert (Hentries : entries p = 3).
  { vm_compute in Hrun. injection Hrun as <-. vm_compute. reflexivity. }
  split; [exact Hentries|]. rewrite Hacc, Hentries. reflexivity.
Defined.


(** * Properties of the memory of [Elohim] *)

Section Memory.
Import Stdlib.Strings.Ascii.
Import Elohim.

Lemma dict_get_set_eq k v d : dict_get k (dict_set k v d) = Some v.
Proof.
  induction d as [|[k' v'] d IH]; simpl.
  - by rewrite decide_True.
  - destruct (decide (k' = k)) as [->|Hne]; simpl.
    + by rewrite decide_True.
    + by rewrite decide_False.
Qed.

Lemma dict_get_set_ne k k' v d :
  k <> k' -> dict_get k' (dict_set k v d) = dict_get k' d.
Proof.
  intros Hne. induction d as [|[k0 v0] d IH]; simpl.
  - by rewrite decide_False.
  - destruct (decide (k0 = k)) as [->|Hk0]; simpl.
    + by rewrite !decide_False.
    + destruct (decide (k0 = k')); [done|apply IH].
Qed.

Lemma list_at_set_eq k xs d : list_at k (dict_set k (PList xs) d) = Some xs.
Proof. unfold list_at. by rewrite dict_get_set_eq. Qed.

Lemma list_at_set_ne k k' v d : k <> k' -> list_at k' (dict_set k v d) = list_at k' d.
Proof. intros Hne. unfold list_at. by rewrite dict_get_set_ne. Qed.

Lemma dict_append_Some k x d xs :
  list_at k d = Some xs -> dict_append k x d = inr (dict_set k (PList (xs ++ [x])) d).
Proof.
  unfold list_at, dict_append. destruct (dict_get k d) as [[]|]; try done.
  by intros [= ->].
Qed.

Lemma dict_append_None k x d :
  list_at k d = None -> exists err, dict_append k x d = inl err.
Proof.
  unfold list_at, dict_append. destruct (dict_get k d) as [[]|]; try done; eauto.
Qed.

Lemma remember_Some now c data e xs :
  list_at "knowledge" (self_state e) = Some xs ->
  _remember now c data e
  = (Done tt,
     logging ("[" +:+ str_upper (category_str c) +:+ "] " +:+ data)
       (_save_state
          (with_self_state
             (dict_set "knowledge" (PList (xs ++ [entry now c data])) (self_state e)) e))).
Proof. intros Hxs. unfold _remember. by rewrite (dict_append_Some _ _ _ _ Hxs). Qed.

Lemma remember_None now c data e :
  list_at "knowledge" (self_state e) = None ->
  exists err, _remember now c data e = (Fail (Lookup err), e).
Proof.
  intros Hxs. unfold _remember.
  destruct (dict_append_None "knowledge" (entry now c data) _ Hxs) as [err Herr].
  unfold entry in Herr. rewrite Herr. eauto.
Qed.

(** ** What [_remember] records *)

(** X11. When ["knowledge"] is a list, [_remember] returns normally; the
    entry with the time, the category and the data is then the last element
    of that list, every other key of the state reads as before, the file
    [state.json] holds exactly the new state, the log has one more line,
    ["[CATEGORY] data"], and nothing is printed or scheduled. *)
Theorem remember_records (now : string) (c : category) (data : string) (e : elohim)
    (xs : list pyval) :
  list_at "knowledge" (self_state e) = Some xs ->
  exists e',
    _remember now c data e = (Done tt, e')
    /\ list_at "knowledge" (self_state e') = Some (xs ++ [entry now c data])
    /\ (forall k, k <> "knowledge" ->
        dict_get k (self_state e') = dict_get k (self_state e))
    /\ state_file e' = Some (self_state e')
    /\ log (sched e') = log (sched e)
         ++ ["[" +:+ str_upper (category_str c) +:+ "] " +:+ data]
    /\ stdout e' = stdout e
    /\ task_queue (sched e') = task_queue (sched e).
Proof.
  intros Hxs. eexists. split; [by apply remember_Some|]. simpl.
  repeat split.
  - apply list_at_set_eq.
  - intros k Hk. by apply dict_get_set_ne.
Qed.

Lemma remember_records_witness :
  exists e',
    _remember "2024-01-01T00:00:00" CTrade "Executed BUY" fresh = (Done tt, e')
    /\ list_at "knowledge" (self_state e')
       = Some [entry "2024-01-01T00:00:00" CTrade "Executed BUY"]
    /\ log (sched e')
       = ["Voice engine initialization failed: No module named 'pyttsx3'";
          "[TRADE] Executed BUY"].
Proof.
  destruct (remember_records "2024-01-01T00:00:00" CTrade "Executed BUY" fresh [])
    as (e' & Hrun & Hk & _ & _ & Hlog & _); [reflexivity|].
  exists e'. split; [exact Hrun|]. split; [exact Hk | exact Hlog].
Defined.

(** ** A state without ["knowledge"] *)

Lemma dict_append_KeyError k x d :
  dict_get k d = None -> dict_append k x d = inl (KeyError k).
Proof. intros Hk. unfold dict_append. by rewrite Hk. Qed.

Lemma remember_KeyError now c data e :
  dict_get "knowledge" (self_state e) = None ->
  _remember now c data e = (Fail (Lookup (KeyError "knowledge")), e).
Proof. intros Hk. unfold _remember. by rewrite dict_append_KeyError. Qed.

(** X12. A [state.json] that lacks the key ["knowledge"] disables the
    object: with such a state, [predict_future], [generate_thought],
    [generate_goals] and [suggest_monetization_opportunities] each raise
    [KeyError('knowledge')] at once and leave the object as it was: nothing
    is printed, spoken, logged, saved or scheduled. *)
Theorem missing_knowledge_key_raises (c : call) (e : elohim) :
  dict_get "knowledge" (self_state e) = None ->
  is_upgrade c = false ->
  perform c e = (Fail (Lookup (KeyError "knowledge")), e).
Proof.
  intros Hk Hc. destruct c; try discriminate Hc; simpl.
  - unfold predict_future. by rewrite remember_KeyError.
  - unfold generate_thought. by rewrite remember_KeyError.
  - unfold generate_goals, generate_thought. by rewrite remember_KeyError.
  - unfold suggest_monetization_opportunities. simpl. by rewrite remember_KeyError.
Qed.

Lemma missing_knowledge_key_raises_witness :
  perform (Generate_goals NoLLM "now" None 7 every_start_succeeds)
    (__init__ "Elohim" None (Some [("version", PStr "v3.1")]))
  = (Fail (Lookup (KeyError "knowledge")),
     __init__ "Elohim" None (Some [("version", PStr "v3.1")])).
Proof.
  apply missing_knowledge_key_raises; reflexivity.
Defined.

(** ** The memory only grows *)

Lemma memory_extends_refl d : memory_extends d d.
Proof.
  repeat split; try done; intros xs Hxs; exists []; by rewrite app_nil_r.
Qed.

Lemma memory_extends_trans d1 d2 d3 :
  memory_extends d1 d2 -> memory_extends d2 d3 -> memory_extends d1 d3.
Proof.
  intros (Ho1 & Hk1 & Hg1) (Ho2 & Hk2 & Hg2). repeat split.
  - intros k ? ? ?. rewrite Ho2, Ho1; done.
  - intros xs Hxs. destruct (Hk1 xs Hxs) as [m1 H1]. destruct (Hk2 _ H1) as [m2 H2].
    exists (m1 ++ m2). by rewrite app_assoc.
  - intros gs Hgs. destruct (Hg1 gs Hgs) as [m1 H1]. destruct (Hg2 _ H1) as [m2 H2].
    exists (m1 ++ m2). by rewrite app_assoc.
Qed.

Lemma memory_extends_append k xs more d :
  k = "knowledge" \/ k = "goals" ->
  list_at k d = Some xs ->
  memory_extends d (dict_set k (PList (xs ++ more)) d).
Proof.
  intros Hk Hxs. repeat split.
  - intros k' ? ? ?. apply dict_get_set_ne. destruct Hk; congruence.
  - intros ys Hys. destruct (decide (k = "knowledge")) as [->|Hne].
    + rewrite list_at_set_eq. exists more. congruence.
    + rewrite list_at_set_ne by done. exists []. by rewrite app_nil_r.
  - intros ys Hys. destruct (decide (k = "goals")) as [->|Hne].
    + rewrite list_at_set_eq. exists more. congruence.
    + rewrite list_at_set_ne by done. exists []. by rewrite app_nil_r.
Qed.

Lemma memory_extends_version v d : memory_extends d (dict_set "version" v d).
Proof.
  repeat split.
  - intros k ? ? ?. by apply dict_get_set_ne.
  - intros xs Hxs. exists []. by rewrite app_nil_r, list_at_set_ne.
  - intros xs Hxs. exists []. by rewrite app_nil_r, list_at_set_ne.
Qed.

Lemma speak_self_state voice text e : self_state (speak voice text e) = self_state e.
Proof. unfold speak. simpl. by destruct (self_voice_enabled e), voice. Qed.

Lemma remember_extends now c data e r e' :
  _remember now c data e = (r, e') ->
  memory_extends (self_state e) (self_state e').
Proof.
  destruct (list_at "knowledge" (self_state e)) as [xs|] eqn:Hxs.
  - rewrite (remember_Some _ _ _ _ _ Hxs). intros [= <- <-]. simpl.
    apply memory_extends_append; auto.
  - destruct (remember_None now c data e Hxs) as [err ->]. intros [= <- <-].
    apply memory_extends_refl.
Qed.

Lemma fetch_extends git now url e :
  memory_extends (self_state e) (self_state (fetch_upgrade_from_repo git now url e)).
Proof.
  unfold fetch_upgrade_from_repo. destruct git as [msg|]; [apply memory_extends_refl|].
  destruct (_remember now CRepoUpdate _ e) as [[|[err| |x]] e1] eqn:Hr;
    apply remember_extends in Hr; simpl; done.
Qed.

Lemma for_ideas_extends todo k nows voices e r e' :
  for_ideas todo k nows voices e = (r, e') ->
  memory_extends (self_state e) (self_state e').
Proof.
  revert k e. induction todo as [|idea todo IH]; intros k e; simpl.
  - intros [= <- <-]. apply memory_extends_refl.
  - destruct (_remember (nows k) CMonetization idea e) as [[|err] e1] eqn:Hr;
      apply remember_extends in Hr.
    + intros Hrest. apply IH in Hrest. rewrite speak_self_state in Hrest.
      by eapply memory_extends_trans.
    + by intros [= <- <-].
Qed.

Lemma perform_extends c e r e' :
  perform c e = (r, e') -> memory_extends (self_state e) (self_state e').
Proof.
  destruct c; simpl.
  - unfold predict_future.
    destruct (_remember now CPrediction _ e) as [[|err] e1] eqn:Hr;
      apply remember_extends in Hr; simpl; intros [= <- <-];
      by rewrite ?speak_self_state.
  - unfold generate_thought.
    destruct (_remember now CThought _ e) as [[|err] e1] eqn:Hr;
      apply remember_extends in Hr; simpl; intros [= <- <-];
      by rewrite ?speak_self_state.
  - unfold self_upgrade.
    pose proof (fetch_extends git now_pull "https://github.com/openai/elohim" e) as Hf.
    set (e1 := fetch_upgrade_from_repo _ _ _ e) in *.
    destruct (map py_int (split_dot (strip_v (self_version e1))))
      as [|[major|] [|[minor|] [|? ?]]]; try (by intros [= <- <-]).
    destruct (_remember now_upgrade CUpgrade _ _) as [[|err] e5] eqn:Hr;
      apply remember_extends in Hr; simpl in Hr; intros [= <- <-];
      rewrite ?speak_self_state;
      (eapply memory_extends_trans; [exact Hf|]);
      (eapply memory_extends_trans; [apply memory_extends_version|exact Hr]).
  - unfold generate_goals, generate_thought.
    destruct (_remember now CThought _ e) as [[|err] e1] eqn:Hr;
      apply remember_extends in Hr; [|by intros [= <- <-]].
    destruct (dict_append "goals" _ _) as [err|d] eqn:Hd.
    { intros [= <- <-]. by rewrite speak_self_state. }
    assert (Hext : memory_extends (self_state e) d).
    { eapply memory_extends_trans; [exact Hr|].
      rewrite speak_self_state in Hd. unfold dict_append in Hd.
      destruct (dict_get "goals" (self_state e1)) as [[| | | | |gs|]|] eqn:Hg;
        try discriminate Hd.
      injection Hd as <-. apply memory_extends_append; [auto|].
      unfold list_at. by rewrite Hg. }
    destruct (schedule_task _ _ _ _) as [[|x] s]; by intros [= <- <-].
  - apply for_ideas_extends.
Qed.

Lemma perform_all_extends cs e r e' :
  perform_all cs e = (r, e') -> memory_extends (self_state e) (self_state e').
Proof.
  revert e. induction cs as [|c cs IH]; intros e; simpl.
  - intros [= <- <-]. apply memory_extends_refl.
  - destruct (perform c e) as [[|err] e1] eqn:Hc; apply perform_extends in Hc.
    + intros Hrest. eapply memory_extends_trans; [exact Hc | by eapply IH].
    + by intros [= <- <-].
Qed.

(** X13. The memory is append-only.  Whatever sequence of calls is made,
    and whether it runs to its end or stops at an exception, the lists under
    ["knowledge"] and ["goals"] afterwards begin with what they held before:
    no entry is ever removed, replaced or reordered. *)
Theorem memory_is_append_only (cs : list call) (e e' : elohim) (r : res unit)
    (ks gs : list pyval) :
  perform_all cs e = (r, e') ->
  list_at "knowledge" (self_state e) = Some ks ->
  list_at "goals" (self_state e) = Some gs ->
  exists more_ks more_gs,
    list_at "knowledge" (self_state e') = Some (ks ++ more_ks)
    /\ list_at "goals" (self_state e') = Some (gs ++ more_gs).
Proof.
  intros Hrun Hks Hgs. apply perform_all_extends in Hrun as (_ & Hk & Hg).
  destruct (Hk ks Hks) as [more_ks ?]. destruct (Hg gs Hgs) as [more_gs ?].
  by exists more_ks, more_gs.
Qed.

Lemma memory_is_append_only_witness :
  exists more_ks more_gs,
    list_at "knowledge"
      (self_state (snd (perform_all run_calls
                          (snd (_remember "t0" CNews "Headline" fresh)))))
    = Some ([entry "t0" CNews "Headline"] ++ more_ks)
    /\ list_at "goals"
         (self_state (snd (perform_all run_calls
                             (snd (_remember "t0" CNews "Headline" fresh)))))
       = Some ([] ++ more_gs).
Proof.
  apply (memory_is_append_only run_calls
           (snd (_remember "t0" CNews "Headline" fresh))
           (snd (perform_all run_calls (snd (_remember "t0" CNews "Headline" fresh))))
           (Done tt) [entry "t0" CNews "Headline"] []);
    vm_compute; reflexivity.
Defined.

(** X14. No method writes any key of the state other than ["knowledge"],
    ["goals"] and ["version"].  In particular the list under ["thoughts"]
    (thoughts are recorded under ["knowledge"]) and the number under
    ["earnings"] read after any sequence of these calls as they did before
    it. *)
Theorem other_keys_never_written (cs : list call) (e e' : elohim) (r : res unit)
    (k : string) :
  perform_all cs e = (r, e') ->
  k <> "knowledge" -> k <> "goals" -> k <> "version" ->
  dict_get k (self_state e') = dict_get k (self_state e).
Proof.
  intros Hrun ? ? ?. apply perform_all_extends in Hrun as (Ho & _ & _). by apply Ho.
Qed.

Lemma other_keys_never_written_witness :
  dict_get "thoughts" (self_state (snd (perform_all run_calls fresh)))
  = dict_get "thoughts" (self_state fresh)
  /\ dict_get "earnings" (self_state (snd (perform_all run_calls fresh)))
     = dict_get "earnings" (self_state fresh).
Proof.
  split.
  - apply (other_keys_never_written run_calls fresh
             (snd (perform_all run_calls fresh)) (Done tt) "thoughts");
      [vm_compute; reflexivity | discriminate | discriminate | discriminate].
  - apply (other_keys_never_written run_calls fresh
             (snd (perform_all run_calls fresh)) (Done tt) "earnings");
      [vm_compute; reflexivity | discriminate | discriminate | discriminate].
Defined.

(** ** On a well-formed state nothing but [self_upgrade] can raise *)

Lemma well_formed_extends d d' :
  memory_extends d d' -> well_formed d -> well_formed d'.
Proof.
  intros (_ & Hk & Hg) [[ks Hks] [gs Hgs]].
  destruct (Hk ks Hks) as [? ?]. destruct (Hg gs Hgs) as [? ?]. by split.
Qed.

Lemma generate_thought_Some model now voice prompt e ks :
  list_at "knowledge" (self_state e) = Some ks ->
  generate_thought model now voice prompt e
  = (Done (thought_of model prompt),
     speak voice (thought_of model prompt)
       (logging ("[THOUGHT] " +:+ thought_of model prompt)
          (_save_state
             (with_self_state
                (dict_set "knowledge"
                   (PList (ks ++ [entry now CThought (thought_of model prompt)]))
                   (self_state e)) e)))).
Proof.
  intros Hks. unfold generate_thought.
  fold (thought_of model prompt). by rewrite (remember_Some _ _ _ _ _ Hks).
Qed.

Lemma for_ideas_Some todo :
  forall k nows voices e ks,
    list_at "knowledge" (self_state e) = Some ks ->
    exists e',
      for_ideas todo k nows voices e = (Done tt, e')
      /\ list_at "knowledge" (self_state e')
         = Some (ks ++ imap (fun j idea => entry (nows (k + j)) CMonetization idea) todo)
      /\ stdout e' = stdout e ++ map (fun idea => newline +:+ "[ELOHIM]: " +:+ idea) todo
      /\ state_file e' = (if todo is [] then state_file e else Some (self_state e')).
Proof.
  induction todo as [|idea todo IH]; intros k nows voices e ks Hks.
  - exists e. simpl. by rewrite !app_nil_r.
  - cbn [for_ideas]. rewrite (remember_Some _ _ _ _ _ Hks).
    set (e0 := logging _ _).
    assert (Hsp : self_state (speak (voices k) idea e0) = self_state e0
                  /\ state_file (speak (voices k) idea e0) = state_file e0
                  /\ stdout (speak (voices k) idea e0)
                     = stdout e0 ++ [newline +:+ "[ELOHIM]: " +:+ idea]).
    { unfold speak. simpl. by destruct (self_voice_enabled e), (voices k). }
    destruct Hsp as (Hs & Hf & Ho).
    assert (Hks1 : list_at "knowledge" (self_state (speak (voices k) idea e0))
                   = Some (ks ++ [entry (nows k) CMonetization idea])).
    { rewrite Hs. simpl. apply list_at_set_eq. }
    destruct (IH (S k) nows voices _ _ Hks1) as (e' & Hrun & Hk' & Hout & Hfile).
    exists e'. split; [exact Hrun|]. split; [|split].
    + rewrite Hk'. cbn [imap]. rewrite <- app_assoc. simpl.
      rewrite Nat.add_0_r. do 3 f_equal.
      apply imap_ext. intros j x _. simpl.
      by replace (k + S j) with (S (k + j)) by lia.
    + rewrite Hout, Ho. simpl. by rewrite <- app_assoc.
    + destruct todo; [|done]. simpl in Hrun. injection Hrun as <-.
      by rewrite Hf, Hs.
Qed.

Lemma perform_well_formed c e :
  well_formed (self_state e) ->
  is_upgrade c = false ->
  exists e', perform c e = (Done tt, e').
Proof.
  intros [[ks Hks] [gs Hgs]] Hc. destruct c; try discriminate Hc; simpl.
  - unfold predict_future. rewrite (remember_Some _ _ _ _ _ Hks). simpl. eauto.
  - rewrite (generate_thought_Some _ _ _ _ _ _ Hks). simpl. eauto.
  - unfold generate_goals. rewrite (generate_thought_Some _ _ _ _ _ _ Hks).
    rewrite speak_self_state. simpl.
    rewrite (dict_append_Some "goals" _ _ gs)
      by (by rewrite list_at_set_ne).
    rewrite schedule_task_spec. eauto.
  - destruct (for_ideas_Some ideas 0 nows voices e ks Hks) as (e' & Hrun & _).
    exists e'. exact Hrun.
Qed.

(** X15. On a state in which ["knowledge"] and ["goals"] are lists (the
    state that [_load_state] makes when there is no file is one), every
    sequence of calls of [predict_future], [generate_thought],
    [generate_goals] and [suggest_monetization_opportunities] runs to its end
    without an exception, whatever the language model, the voice engine and
    the thread starts do, and leaves such a state. *)
Theorem well_formed_state_never_raises (cs : list call) (e : elohim) :
  well_formed (self_state e) ->
  Forall (fun c => is_upgrade c = false) cs ->
  exists e', perform_all cs e = (Done tt, e') /\ well_formed (self_state e').
Proof.
  revert e. induction cs as [|c cs IH]; intros e Hwf Hcs; simpl.
  - by exists e.
  - apply Forall_cons in Hcs as [Hc Hcs].
    destruct (perform_well_formed c e Hwf Hc) as [e1 Hrun]. rewrite Hrun.
    apply IH; [|done].
    apply (well_formed_extends (self_state e)); [|done].
    by eapply perform_extends.
Qed.

Lemma well_formed_state_never_raises_witness :
  exists e',
    perform_all
      [Generate_goals (LLMError "timeout") "t" (Some "no audio device") 7 no_thread_starts;
       Suggest_monetization_opportunities (fun _ => "t") (fun _ => None)]
      (__init__ "Elohim" None None)
    = (Done tt, e')
    /\ well_formed (self_state e').
Proof.
  apply well_formed_state_never_raises.
  - split; by eexists.
  - repeat constructor.
Defined.

Lemma speak_effects voice text e :
  self_state (speak voice text e) = self_state e
  /\ state_file (speak voice text e) = state_file e
  /\ self_version (speak voice text e) = self_version e
  /\ stdout (speak voice text e) = stdout e ++ [newline +:+ "[ELOHIM]: " +:+ text]
  /\ task_queue (sched (speak voice text e)) = task_queue (sched e)
  /\ scheduler_started (sched (speak voice text e)) = scheduler_started (sched e)
  /\ workers (sched (speak voice text e)) = workers (sched e).
Proof. unfold speak. simpl. by destruct (self_voice_enabled e), voice. Qed.

(** ** [generate_goals] *)



(** X17. When the state has a list under ["knowledge"] but no key
    ["goals"], [generate_goals] raises [KeyError('goals')] half way: the
    thought has already been remembered, saved to [state.json] and printed,
    but nothing is added to the task queue and the pool is not started. *)
Theorem generate_goals_without_goals_key (model : llm) (now : string)
    (voice : option string) (fn : action) (starts : nat -> start_outcome)
    (e : elohim) (ks : list pyval) :
  list_at "knowledge" (self_state e) = Some ks ->
  dict_get "goals" (self_state e) = None ->
  exists e',
    generate_goals model now voice fn starts e = (Fail (Lookup (KeyError "goals")), e')
    /\ list_at "knowledge" (self_state e')
       = Some (ks ++ [entry now CThought
                        (thought_of model "Generate a useful self-evolution goal")])
    /\ state_file e' = Some (self_state e')
    /\ stdout e' = stdout e ++
         [newline +:+ "[ELOHIM]: " +:+
          thought_of model "Generate a useful self-evolution goal"]
    /\ task_queue (sched e') = task_queue (sched e)
    /\ scheduler_started (sched e') = scheduler_started (sched e)
    /\ workers (sched e') = workers (sched e).
Proof.
  intros Hks Hgs. unfold generate_goals.
  rewrite (generate_thought_Some _ _ _ _ _ _ Hks).
  set (goal := thought_of model "Generate a useful self-evolution goal").
  set (e1 := logging _ _).
  destruct (speak_effects voice goal e1) as (Hs & Hf & _ & Ho & Hq & Hfl & Hw).
  rewrite dict_append_KeyError
    by (rewrite Hs; simpl; by rewrite dict_get_set_ne).
  eexists. split; [reflexivity|].
  rewrite Hs, Hf, Ho, Hq, Hfl, Hw. simpl. repeat split. apply list_at_set_eq.
Qed.

Lemma generate_goals_without_goals_key_witness :
  exists e',
    generate_goals NoLLM "t" None 7 every_start_succeeds
      (__init__ "Elohim" None (Some [("knowledge", PList [])]))
    = (Fail (Lookup (KeyError "goals")), e')
    /\ task_queue (sched e') = []
    /\ scheduler_started (sched e') = false.
Proof.
  destruct (generate_goals_without_goals_key NoLLM "t" None 7 every_start_succeeds
              (__init__ "Elohim" None (Some [("knowledge", PList [])])) [])
    as (e' & Hrun & _ & _ & _ & Hq & Hf & _); try reflexivity.
  exists e'. repeat split; assumption.
Defined.

(** ** [generate_thought] without a language model *)

Lemma append_cons a (s t : string) : String a s +:+ t = String a (s +:+ t).
Proof. reflexivity. Qed.

Lemma append_empty_l (t : string) : EmptyString +:+ t = t.
Proof. reflexivity. Qed.

Lemma reverse_onto_twice s acc1 acc2 :
  reverse_onto (reverse_onto s acc1) acc2 = reverse_onto acc1 (s +:+ acc2).
Proof.
  revert acc1. induction s as [|a s IH]; intros acc1.
  - by rewrite append_empty_l.
  - rewrite append_cons. simpl. by rewrite IH.
Qed.

Lemma append_empty_r (s : string) : s +:+ EmptyString = s.
Proof.
  induction s as [|a s IH]; [done|]. by rewrite append_cons, IH.
Qed.

Lemma str_reverse_involutive s : str_reverse (str_reverse s) = s.
Proof.
  unfold str_reverse. rewrite reverse_onto_twice. simpl. by rewrite append_empty_r.
Qed.

Lemma reverse_onto_length s acc :
  String.length (reverse_onto s acc) = String.length s + String.length acc.
Proof.
  revert acc. induction s as [|a s IH]; intros acc; simpl; [done|].
  rewrite IH. simpl. lia.
Qed.

(** X18. Without a language model the thought is the prompt written
    backwards after the mark "[Simulated Thought]: ": the call returns a text
    [mark +:+ body] whose [body] is as long as the prompt and, read backwards,
    is the prompt; that text is what is remembered under category "thought"
    and printed. *)
Theorem simulated_thought_is_prompt_reversed (now : string) (voice : option string)
    (prompt : string) (e : elohim) (ks : list pyval) :
  list_at "knowledge" (self_state e) = Some ks ->
  exists body e',
    generate_thought NoLLM now voice prompt e
    = (Done ("[Simulated Thought]: " +:+ body), e')
    /\ str_reverse body = prompt
    /\ String.length body = String.length prompt
    /\ list_at "knowledge" (self_state e')
       = Some (ks ++ [entry now CThought ("[Simulated Thought]: " +:+ body)])
    /\ stdout e' = stdout e ++
         [newline +:+ "[ELOHIM]: " +:+ ("[Simulated Thought]: " +:+ body)].
Proof.
  intros Hks. exists (str_reverse prompt). eexists.
  split; [apply (generate_thought_Some NoLLM _ _ _ _ _ Hks)|].
  split; [apply str_reverse_involutive|].
  split; [unfold str_reverse; rewrite reverse_onto_length; simpl; lia|].
  set (e1 := logging _ _).
  destruct (speak_effects voice (thought_of NoLLM prompt) e1) as (Hs & _ & _ & Ho & _).
  rewrite Hs, Ho. simpl. split; [apply list_at_set_eq | done].
Qed.

Lemma simulated_thought_is_prompt_reversed_witness :
  exists e',
    generate_thought NoLLM "t" None "What lies beyond intelligence?" fresh
    = (Done "[Simulated Thought]: ?ecnegilletni dnoyeb seil tahW", e').
Proof.
  destruct (simulated_thought_is_prompt_reversed "t" None
              "What lies beyond intelligence?" fresh [])
    as (body & e' & Hrun & Hrev & _); [reflexivity|].
  assert (Hbody : body = "?ecnegilletni dnoyeb seil tahW")
    by (rewrite <- (str_reverse_involutive body), Hrev; reflexivity).
  exists e'. rewrite Hrun, Hbody. reflexivity.
Defined.

(** ** [self_upgrade] *)

Lemma free_of_append a s1 s2 :
  free_of a (s1 +:+ s2) = free_of a s1 && free_of a s2.
Proof.
  induction s1 as [|b s1 IH]; simpl; [done|]. rewrite IH. by rewrite andb_assoc.
Qed.

Lemma free_of_reverse_onto a s acc :
  free_of a (reverse_onto s acc) = free_of a s && free_of a acc.
Proof.
  revert acc. induction s as [|b s IH]; intros acc; simpl; [done|].
  rewrite IH. simpl. destruct (Ascii.eqb a b), (free_of a s); done.
Qed.

Lemma lstrip_v_free s : free_of "v"%char s = true -> lstrip_v s = s.
Proof.
  destruct s as [|b s]; [done|]. simpl. intros [Hb _]%andb_true_iff.
  destruct b as [[] [] [] [] [] [] [] []]; done.
Qed.

Lemma strip_v_free s : free_of "v"%char s = true -> strip_v (String "v"%char s) = s.
Proof.
  intros Hs. unfold strip_v.
  change (lstrip_v (String "v"%char s)) with (lstrip_v s).
  rewrite (lstrip_v_free s Hs), lstrip_v_free.
  - apply str_reverse_involutive.
  - unfold str_reverse. rewrite free_of_reverse_onto, Hs. done.
Qed.

Lemma split_dot_from_free a cur rest :
  free_of "."%char a = true ->
  split_dot_from cur (a +:+ rest) = split_dot_from (reverse_onto a cur) rest.
Proof.
  revert cur. induction a as [|b a IH]; intros cur; simpl; [done|].
  intros [Hb Ha]%andb_true_iff. rewrite <- (IH _ Ha).
  destruct b as [[] [] [] [] [] [] [] []]; done.
Qed.

Lemma split_dot_two a b :
  free_of "."%char a = true -> free_of "."%char b = true ->
  split_dot (a +:+ "." +:+ b) = [a; b].
Proof.
  intros Ha Hb. unfold split_dot. rewrite (split_dot_from_free a _ _ Ha).
  rewrite append_cons, append_empty_l. cbn [split_dot_from].
  pose proof (split_dot_from_free b EmptyString EmptyString Hb) as Hb'.
  rewrite append_empty_r in Hb'. rewrite Hb'. cbn [split_dot_from].
  fold (str_reverse a). fold (str_reverse b).
  by rewrite !str_reverse_involutive.
Qed.

Lemma remember_keeps now c data e r e' :
  _remember now c data e = (r, e') ->
  self_version e' = self_version e /\ stdout e' = stdout e
  /\ self_voice_enabled e' = self_voice_enabled e.
Proof.
  unfold _remember. destruct (dict_append _ _ _); by intros [= <- <-].
Qed.

Lemma fetch_keeps git now url e :
  self_version (fetch_upgrade_from_repo git now url e) = self_version e
  /\ stdout (fetch_upgrade_from_repo git now url e) = stdout e.
Proof.
  unfold fetch_upgrade_from_repo. destruct git as [msg|]; [done|].
  destruct (_remember now CRepoUpdate _ e) as [[|[err| |x]] e1] eqn:Hr;
    apply remember_keeps in Hr as (? & ? & ?); done.
Qed.

Lemma self_upgrade_bump (py_int : string -> option Z) (py_str : Z -> string)
    git now_pull now_upgrade voice e (major minor : Z) ks :
  self_version e = "v" +:+ py_str major +:+ "." +:+ py_str minor ->
  py_int (py_str major) = Some major ->
  py_int (py_str minor) = Some minor ->
  free_of "v"%char (py_str major) = true -> free_of "."%char (py_str major) = true ->
  free_of "v"%char (py_str minor) = true -> free_of "."%char (py_str minor) = true ->
  list_at "knowledge" (self_state e) = Some ks ->
  exists e' more,
    self_upgrade py_int py_str git now_pull now_upgrade voice e = (Done tt, e')
    /\ self_version e' = "v" +:+ py_str major +:+ "." +:+ py_str (minor + 1)%Z
    /\ dict_get "version" (self_state e') = Some (PStr (self_version e'))
    /\ state_file e' = Some (self_state e')
    /\ list_at "knowledge" (self_state e')
       = Some (ks ++ more ++
               [entry now_upgrade CUpgrade
                  ("Upgraded to Elohim version " +:+ self_version e')])
    /\ stdout e' = stdout e ++
         [newline +:+ "[ELOHIM]: " +:+
          ("Upgraded to Elohim version " +:+ self_version e')].
Proof.
  intros Hv HM HN HvM HdM HvN HdN Hks. unfold self_upgrade.
  pose proof (fetch_extends git now_pull "https://github.com/openai/elohim" e)
    as (_ & Hgrow & _).
  destruct (fetch_keeps git now_pull "https://github.com/openai/elohim" e)
    as [Hver Hout].
  set (e1 := fetch_upgrade_from_repo _ _ _ e) in *.
  destruct (Hgrow ks Hks) as [more Hks1].
  rewrite Hver, Hv.
  change ("v" +:+ py_str major +:+ "." +:+ py_str minor)
    with (String "v"%char (py_str major +:+ "." +:+ py_str minor)).
  rewrite strip_v_free
    by (rewrite !free_of_append, HvM, HvN; reflexivity).
  rewrite split_dot_two by done. simpl map. rewrite HM, HN.
  set (version := "v" +:+ py_str major +:+ "." +:+ py_str (minor + 1)%Z).
  erewrite remember_Some by (simpl; rewrite list_at_set_ne by done; exact Hks1).
  set (e5 := logging _ _).
  destruct (speak_effects voice ("Upgraded to Elohim version " +:+ version) e5)
    as (Hs & Hf & Hsv & Ho & _).
  exists (speak voice ("Upgraded to Elohim version " +:+ version) e5), more.
  split; [reflexivity|]. rewrite Hs, Hf, Hsv, Ho. simpl.
  repeat split.
  - rewrite dict_get_set_ne by done. apply dict_get_set_eq.
  - by rewrite list_at_set_eq, app_assoc.
  - by rewrite Hout.
Qed.

(** X19. [self_upgrade] raises the minor version by one.  When the version
    is "v", a major number, a dot and a minor number, as [str] writes numbers
    and [int] reads them back, and ["knowledge"] is a list, the call returns
    normally; the version is then the same major number and the minor number
    plus one, the state holds it under ["version"], [state.json] holds the
    state, and the upgrade is the last thing remembered and printed. *)
Theorem self_upgrade_raises_minor_by_one (py_int : string -> option Z)
    (py_str : Z -> string) (git : option string) (now_pull now_upgrade : string)
    (voice : option string) (e : elohim) (major minor : Z) (ks : list pyval) :
  self_version e = "v" +:+ py_str major +:+ "." +:+ py_str minor ->
  py_int (py_str major) = Some major ->
  py_int (py_str minor) = Some minor ->
  free_of "v"%char (py_str major) = true -> free_of "."%char (py_str major) = true ->
  free_of "v"%char (py_str minor) = true -> free_of "."%char (py_str minor) = true ->
  list_at "knowledge" (self_state e) = Some ks ->
  exists e' more,
    self_upgrade py_int py_str git now_pull now_upgrade voice e = (Done tt, e')
    /\ self_version e' = "v" +:+ py_str major +:+ "." +:+ py_str (minor + 1)%Z
    /\ dict_get "version" (self_state e') = Some (PStr (self_version e'))
    /\ state_file e' = Some (self_state e')
    /\ list_at "knowledge" (self_state e')
       = Some (ks ++ more ++
               [entry now_upgrade CUpgrade
                  ("Upgraded to Elohim version " +:+ self_version e')])
    /\ stdout e' = stdout e ++
         [newline +:+ "[ELOHIM]: " +:+
          ("Upgraded to Elohim version " +:+ self_version e')].
Proof. apply self_upgrade_bump. Qed.

Lemma self_upgrade_raises_minor_by_one_witness :
  exists e',
    self_upgrade decimal_int decimal_str (Some "git: not a repository") "t1" "t2" None
      (with_self_version "v12.-3" fresh) = (Done tt, e')
    /\ self_version e' = "v12.-2".
Proof.
  destruct (self_upgrade_raises_minor_by_one decimal_int decimal_str
              (Some "git: not a repository") "t1" "t2" None
              (with_self_version "v12.-3" fresh) 12%Z (-3)%Z [])
    as (e' & more & Hrun & Hv & _); try reflexivity.
  exists e'. split; [exact Hrun | exact Hv].
Defined.

(** X20. The version written in [state.json] is never read.  Whatever the
    file holds under ["version"], [__init__] sets the version to "v3.1"; so
    the first [self_upgrade] of every process makes it "v3.2" and overwrites
    the ["version"] of the state with that, also when an earlier process had
    saved a later one. *)
Theorem persisted_version_is_never_read (logo : string) (voice_init : option string)
    (file : option (list (string * pyval))) (git : option string)
    (now_pull now_upgrade : string) (voice : option string) (ks : list pyval) :
  list_at "knowledge" (self_state (__init__ logo voice_init file)) = Some ks ->
  self_version (__init__ logo voice_init file) = "v3.1"
  /\ exists e',
       self_upgrade decimal_int decimal_str git now_pull now_upgrade voice
         (__init__ logo voice_init file) = (Done tt, e')
       /\ self_version e' = "v3.2"
       /\ dict_get "version" (self_state e') = Some (PStr "v3.2")
       /\ (exists d, state_file e' = Some d
                     /\ dict_get "version" d = Some (PStr "v3.2")).
Proof.
  intros Hks.
  assert (Hv : self_version (__init__ logo voice_init file) = "v3.1").
  { unfold __init__, _load_state. simpl. by destruct voice_init, file. }
  split; [exact Hv|].
  destruct (self_upgrade_bump decimal_int decimal_str git now_pull now_upgrade voice
              (__init__ logo voice_init file) 3%Z 1%Z ks)
    as (e' & more & Hrun & Hv' & Hd & Hf & _); try done.
  exists e'. split; [exact Hrun|]. split; [exact Hv'|].
  rewrite Hv' in Hd. split; [exact Hd|]. by exists (self_state e').
Qed.

Lemma persisted_version_is_never_read_witness :
  exists e',
    self_upgrade decimal_int decimal_str None "t1" "t2" None
      (__init__ "Elohim" None
         (Some [("knowledge", PList []); ("version", PStr "v3.7")]))
    = (Done tt, e')
    /\ dict_get "version" (self_state e') = Some (PStr "v3.2").
Proof.
  destruct (persisted_version_is_never_read "Elohim" None
              (Some [("knowledge", PList []); ("version", PStr "v3.7")])
              None "t1" "t2" None [])
    as (_ & e' & Hrun & _ & Hd & _); [reflexivity|].
  exists e'. split; [exact Hrun | exact Hd].
Defined.

(** ** [suggest_monetization_opportunities] *)

(** X21. When ["knowledge"] is a list, [suggest_monetization_opportunities]
    returns normally, having remembered its five ideas in the order of the
    source, each under category "monetization" with the time of its own turn,
    after what was there; it has printed one line per idea in the same order,
    and [state.json] holds the final state. *)
Theorem suggestions_remembered_in_order (nows : nat -> string)
    (voices : nat -> option string) (e : elohim) (ks : list pyval) :
  list_at "knowledge" (self_state e) = Some ks ->
  exists e',
    suggest_monetization_opportunities nows voices e = (Done tt, e')
    /\ list_at "knowledge" (self_state e')
       = Some (ks ++ imap (fun j idea => entry (nows j) CMonetization idea) ideas)
    /\ stdout e' = stdout e ++ map (fun idea => newline +:+ "[ELOHIM]: " +:+ idea) ideas
    /\ state_file e' = Some (self_state e').
Proof.
  intros Hks.
  destruct (for_ideas_Some ideas 0 nows voices e ks Hks) as (e' & Hrun & Hk & Ho & Hf).
  exists e'. split; [exact Hrun|]. split; [|split; [exact Ho | exact Hf]].
  rewrite Hk. do 2 f_equal.
Qed.

Lemma suggestions_remembered_in_order_witness :
  exists e',
    suggest_monetization_opportunities (fun j => if Nat.even j then "t-even" else "t-odd") (fun _ => None) fresh
    = (Done tt, e')
    /\ length (stdout e') = 6
    /\ state_file e' = Some (self_state e').
Proof.
  destruct (suggestions_remembered_in_order (fun j => if Nat.even j then "t-even" else "t-odd") (fun _ => None) fresh [])
    as (e' & Hrun & _ & Ho & Hf); [reflexivity|].
  exists e'. split; [exact Hrun|]. split; [|exact Hf].
  rewrite Ho. reflexivity.
Defined.

End Memory.
